(** * interactive_pool: a fixed-size pool of resources with timing detectors

    Shallow embedding of [include/interactive_pool.h].

    - [std::unique_ptr<T>] is [option T] ([None] is the null pointer, which is
      also what a moved-from [unique_ptr] holds).
    - [std::deque] is [list]: [front]/[pop_front] work on the head and
      [push_back] appends at the tail.
    - [uint32_t] values are [Z] with the wrap-around written out; [size_t]
      values are [N].
    - [high_resolution_clock::now()] is an oracle [now : nat -> Z]: the k-th
      reading taken, in clock ticks, with [ticks_per_ms] ticks in a
      millisecond.
    - A call is run at a quiescent point: no other thread touches the pool
      while it runs, so the mutex is not modelled.
    - A thrown exception, undefined behaviour and a loop that is still
      running when the iteration budget ends are outcomes of their own. *)

From Stdlib Require Import ZArith NArith List String Bool Lia DecimalString.
Import ListNotations.
Local Open Scope Z_scope.

(** ** Outcomes *)

Inductive exn : Type :=
| runtime_error (what : string).

Inductive fault : Type :=
| pop_front_on_empty
| division_by_zero
| null_dereference.

Inductive outcome (A : Type) : Type :=
| Ret (a : A)
| Throw (e : exn)
| Undefined (f : fault)
| Spinning.

Arguments Ret {A} a.
Arguments Throw {A} e.
Arguments Undefined {A} f.
Arguments Spinning {A}.

(** ** Machine integers *)

Definition uint32_modulus : Z := 2 ^ 32.
Definition uint32_max : Z := uint32_modulus - 1.

(** Conversion to [uint32_t]. *)
Definition to_uint32 (z : Z) : Z := z mod uint32_modulus.

(** Conversion of an [unsigned int] bit pattern to [int]. *)
Definition to_int32 (z : Z) : Z :=
  let u := to_uint32 z in
  if u <? 2 ^ 31 then u else u - uint32_modulus.

(** [std::to_string] on a [size_t]. *)
Definition to_string (n : N) : string := NilZero.string_of_uint (N.to_uint n).

(** A defaulted C++ argument: [None] when the caller leaves it out. *)
Definition arg_or {A : Type} (default : A) (arg : option A) : A :=
  match arg with
  | Some a => a
  | None => default
  end.

(** ** interactive_pool_time *)

Record interactive_pool_time : Type := mk_time {
  init : Z;
  finish : Z;
  elapsed_time : Z
}.

(** ** What a run does, in order *)

Inductive event : Type :=
| ev_stamp_init (t : Z)
| ev_lock_check (empty : bool)
| ev_pop_front
| ev_stamp_finish (t : Z)
| ev_sleep (ms : Z)
| ev_push_back
| ev_set_elapsed_time (i : Z).

Definition is_stamp_init (e : event) : bool :=
  match e with ev_stamp_init _ => true | _ => false end.

Definition is_stamp_finish (e : event) : bool :=
  match e with ev_stamp_finish _ => true | _ => false end.

Definition is_lock_check (e : event) : bool :=
  match e with ev_lock_check _ => true | _ => false end.

Definition is_sleep (e : event) : bool :=
  match e with ev_sleep _ => true | _ => false end.

Definition is_push_back (e : event) : bool :=
  match e with ev_push_back => true | _ => false end.

Definition is_set_elapsed_time (e : event) : bool :=
  match e with ev_set_elapsed_time _ => true | _ => false end.

Definition count_events (f : event -> bool) (tr : list event) : nat :=
  List.length (filter f tr).

Section InteractivePool.

(** The pooled class and its default constructor. *)
Context {T : Type}.
Variable make_T : T.

(** The clock. *)
Variable now : nat -> Z.
Variable ticks_per_ms : Z.

(** ** interactive_pool *)

Definition item : Type := option T.

Definition is_null (i : item) : bool :=
  match i with Some _ => false | None => true end.

Record interactive_pool : Type := mk_pool {
  _initialSize : N;
  _freeItems : list item
}.

(** [interactive_pool(size_t size)]: [resize] makes [size] null items, then
    each one is given a fresh [T]. *)
Definition new_interactive_pool (size : N) : interactive_pool :=
  {| _initialSize := size;
     _freeItems := map (fun _ : item => Some make_T)
                       (repeat None (N.to_nat size)) |}.

Definition get_available_count (p : interactive_pool) : N :=
  N.of_nat (List.length (_freeItems p)).

Definition leak_message (initial current : N) : string :=
  ("interactive_pool: Different count of items. Pool was created with ["
   ++ to_string initial ++ "] but during destruction have ["
   ++ to_string current ++ "]")%string.

Definition check_before_destruct (p : interactive_pool)
  : outcome unit * interactive_pool :=
  let current := N.of_nat (List.length (_freeItems p)) in
  if negb (current =? _initialSize p)%N
  then (Throw (runtime_error (leak_message (_initialSize p) current)), p)
  else (Ret tt, p).

(** The pool together with the clock position and the record of the run. *)
Record world : Type := mk_world {
  pool : interactive_pool;
  reads : nat;
  trace : list event
}.

Definition with_pool (w : world) (p : interactive_pool) : world :=
  {| pool := p; reads := reads w; trace := trace w |}.

Definition emit (w : world) (es : list event) : world :=
  {| pool := pool w; reads := reads w; trace := trace w ++ es |}.

Definition read_clock (w : world) : Z * world :=
  (now (reads w),
   {| pool := pool w; reads := S (reads w); trace := trace w |}).

Definition all_in_use : exn :=
  runtime_error "interactive_pool: All items are in use".

Definition get_item_max_wait_ms_default : Z := uint32_max.

(** The [do ... while] loop of [get_item], at most [fuel] rounds of it.
    [elapsed.count() < max_wait_ms] compares milliseconds with a fraction;
    it is written here on ticks. *)
Fixpoint get_item_loop (fuel : nat) (max_wait_ms t0 : Z)
    (time_elapsed_ms : option interactive_pool_time) (w : world)
  : outcome item * option interactive_pool_time * world :=
  match fuel with
  | O => (Spinning, time_elapsed_ms, w)
  | S fuel' =>
    match _freeItems (pool w) with
    | j :: rest =>
      let w1 := emit (with_pool w (mk_pool (_initialSize (pool w)) rest))
                     [ev_lock_check false; ev_pop_front] in
      match time_elapsed_ms with
      | Some tm =>
        let '(t, w2) := read_clock w1 in
        (Ret j,
         Some {| init := init tm;
                 finish := t;
                 elapsed_time := Z.quot (t - init tm) ticks_per_ms |},
         emit w2 [ev_stamp_finish t])
      | None => (Ret j, None, w1)
      end
    | [] =>
      let w1 := emit w [ev_lock_check true] in
      let '(t1, w2) := read_clock w1 in
      let elapsed := t1 - t0 in
      let w3 := emit w2 [ev_sleep 1] in
      if elapsed <? max_wait_ms * ticks_per_ms
      then get_item_loop fuel' max_wait_ms t0 time_elapsed_ms w3
      else (Throw all_in_use, time_elapsed_ms, w3)
    end
  end.

Definition get_item (fuel : nat) (max_wait_ms : option Z)
    (time_elapsed_ms : option interactive_pool_time) (w : world)
  : outcome item * option interactive_pool_time * world :=
  let max_wait_ms := arg_or get_item_max_wait_ms_default max_wait_ms in
  let '(t0, w1) := read_clock w in
  match time_elapsed_ms with
  | Some tm =>
    let '(t, w2) := read_clock w1 in
    get_item_loop fuel max_wait_ms t0
      (Some {| init := t; finish := finish tm;
               elapsed_time := elapsed_time tm |})
      (emit w2 [ev_stamp_init t])
  | None => get_item_loop fuel max_wait_ms t0 None w1
  end.

(** [set_item(item& r)]: the item is moved into the deque, which leaves the
    caller's [r] null. *)
Definition set_item (r : item) (w : world) : item * world :=
  (None,
   emit (with_pool w
           (mk_pool (_initialSize (pool w)) (_freeItems (pool w) ++ [r])))
        [ev_push_back]).

End InteractivePool.

Arguments item T : clear implicits.
Arguments interactive_pool T : clear implicits.
Arguments world T : clear implicits.

(** ** Detectors *)

(** [base_detector]: one virtual method. [U] is what the user's callbacks
    act on; calling a callback is applying it. *)
Class base_detector (U D : Type) : Type := {
  set_elapsed_time : Z -> D -> U -> outcome unit * D * U
}.

Module Average.
Section AverageDetector.

Context {Id U : Type}.

Record interactive_average_detector : Type := mk_detector {
  _id : Id;
  _samples_count : N;
  _samples : list Z;
  _trigger_level : Z;
  _lcall_back : Id -> Z -> Z -> U -> U
}.

(** The constructor: [_samples(samples)] builds a deque of [samples]
    value-initialised elements. *)
Definition new_detector (id : Id) (samples : N) (trigger_level : Z)
    (fcn : Id -> Z -> Z -> U -> U) : interactive_average_detector :=
  {| _id := id;
     _samples_count := samples;
     _samples := repeat 0 (N.to_nat samples);
     _trigger_level := trigger_level;
     _lcall_back := fcn |}.

Definition with_samples (d : interactive_average_detector) (s : list Z)
  : interactive_average_detector :=
  {| _id := _id d;
     _samples_count := _samples_count d;
     _samples := s;
     _trigger_level := _trigger_level d;
     _lcall_back := _lcall_back d |}.

(** [std::accumulate(first, last, 0)]: the sum is kept in an [int]; adding a
    [uint32_t] to it is done on [unsigned int] and the result converted
    back. *)
Definition accumulate (s : list Z) : Z :=
  fold_left (fun acc x => to_int32 (to_uint32 acc + x)) s 0.

(** The quotient is unsigned: the [int] sum is converted to [unsigned int]
    before it is divided by the [uint32_t] size. *)
Definition average (s : list Z) : outcome Z :=
  match s with
  | [] => Ret 0
  | _ :: _ =>
    let n := to_uint32 (Z.of_nat (List.length s)) in
    if n =? 0 then Undefined division_by_zero
    else Ret (to_uint32 (accumulate s) / n)
  end.

Definition set_elapsed_time (i : Z) (d : interactive_average_detector) (u : U)
  : outcome unit * interactive_average_detector * U :=
  let popped :=
    if (_samples_count d <=? N.of_nat (List.length (_samples d)))%N
    then match _samples d with
         | [] => Undefined pop_front_on_empty
         | _ :: rest => Ret rest
         end
    else Ret (_samples d) in
  match popped with
  | Ret s1 =>
    let d2 := with_samples d (s1 ++ [i]) in
    if (N.of_nat (List.length (_samples d2)) =? _samples_count d2)%N
    then match average (_samples d2) with
         | Ret cur =>
           if cur >? _trigger_level d2
           then (Ret tt, d2,
                 _lcall_back d2 (_id d2) (_trigger_level d2) cur u)
           else (Ret tt, d2, u)
         | Throw e => (Throw e, d2, u)
         | Undefined f => (Undefined f, d2, u)
         | Spinning => (Spinning, d2, u)
         end
    else (Ret tt, d2, u)
  | Throw e => (Throw e, d, u)
  | Undefined f => (Undefined f, d, u)
  | Spinning => (Spinning, d, u)
  end.

End AverageDetector.

Arguments interactive_average_detector Id U : clear implicits.

End Average.

#[global] Instance average_is_detector {Id U : Type}
  : base_detector U (Average.interactive_average_detector Id U) :=
  {| set_elapsed_time := Average.set_elapsed_time |}.

Module Peak.
Section PeakDetector.

Context {Id U : Type}.

Record interactive_peak_detector : Type := mk_detector {
  _id : Id;
  _trigger_level : Z;
  _lcall_back : Id -> Z -> Z -> U -> U
}.

Definition new_detector (id : Id) (trigger_level : Z)
    (fcn : Id -> Z -> Z -> U -> U) : interactive_peak_detector :=
  {| _id := id; _trigger_level := trigger_level; _lcall_back := fcn |}.

Definition set_elapsed_time (i : Z) (d : interactive_peak_detector) (u : U)
  : outcome unit * interactive_peak_detector * U :=
  if i >? _trigger_level d
  then (Ret tt, d, _lcall_back d (_id d) (_trigger_level d) i u)
  else (Ret tt, d, u).

End PeakDetector.

Arguments interactive_peak_detector Id U : clear implicits.

End Peak.

#[global] Instance peak_is_detector {Id U : Type}
  : base_detector U (Peak.interactive_peak_detector Id U) :=
  {| set_elapsed_time := Peak.set_elapsed_time |}.

(** The exact sum of a window, for comparison with [Average.accumulate]. *)
Definition total (s : list Z) : Z := fold_right Z.add 0 s.

(** The window of an average detector holds as many samples as its
    nominal size, which is at least one and fits a [uint32_t]. *)
Definition full_window {Id U : Type}
    (d : Average.interactive_average_detector Id U) : Prop :=
  (1 <= Average._samples_count d)%N /\
  Z.of_N (Average._samples_count d) < uint32_modulus /\
  List.length (Average._samples d) = N.to_nat (Average._samples_count d).

(** A callback that writes down each invocation it receives. *)
Definition record_call {Id : Type} (id : Id) (level value : Z)
    (log : list (Id * Z * Z)) : list (Id * Z * Z) :=
  log ++ [(id, level, value)].

(** Successive calls of [set_elapsed_time], stopping at the first one that
    does not return. *)
Fixpoint feed {U D : Type} `{base_detector U D} (l : list Z) (d : D) (u : U)
  : outcome unit * D * U :=
  match l with
  | [] => (Ret tt, d, u)
  | i :: l' =>
    match set_elapsed_time i d u with
    | (Ret _, d', u') => feed l' d' u'
    | other => other
    end
  end.

(** ** interactive_pool_scoped_connection *)

(** A raw pointer, as far as the code looks at it: null or not. *)
Inductive pointer : Type :=
| nullptr
| address.

Definition pointer_to {A : Type} (o : option A) : pointer :=
  match o with Some _ => address | None => nullptr end.

Section ScopedConnection.

Context {T U D : Type} `{base_detector U D}.
Variable now : nat -> Z.
Variable ticks_per_ms : Z.

Record interactive_pool_scoped_connection : Type := mk_scoped {
  _p : item T;
  _pool : pointer;
  _detector : pointer
}.

Definition scoped_max_wait_ms_default : Z := 0.

(** Everything a scope touches besides the pool: the caller's
    [interactive_pool_time] and detector (when their pointers are not null)
    and what the callbacks act on. *)
Record frame : Type := mk_frame {
  the_time : option interactive_pool_time;
  the_detector : option D;
  the_user : U;
  the_world : world T
}.

(** The constructor. The virtual call reads [elapsed_time.count()] into a
    [uint32_t]. *)
Definition new_scoped_connection (fuel : nat) (pool : pointer)
    (max_wait_ms : option Z) (time_elapsed_ms : option interactive_pool_time)
    (detector : option D) (u : U) (w : world T)
  : outcome interactive_pool_scoped_connection * frame :=
  let max_wait_ms := arg_or scoped_max_wait_ms_default max_wait_ms in
  match pool with
  | nullptr =>
    (Undefined null_dereference, mk_frame time_elapsed_ms detector u w)
  | address =>
    match get_item now ticks_per_ms fuel (Some max_wait_ms)
                   time_elapsed_ms w with
    | (Ret j, tm, w1) =>
      let c := {| _p := j; _pool := pool; _detector := pointer_to detector |} in
      match detector, tm with
      | Some d, Some s =>
        let i := to_uint32 (elapsed_time s) in
        let w2 := emit w1 [ev_set_elapsed_time i] in
        match set_elapsed_time i d u with
        | (Ret _, d', u') => (Ret c, mk_frame tm (Some d') u' w2)
        | (Throw e, d', u') => (Throw e, mk_frame tm (Some d') u' w2)
        | (Undefined f, d', u') => (Undefined f, mk_frame tm (Some d') u' w2)
        | (Spinning, d', u') => (Spinning, mk_frame tm (Some d') u' w2)
        end
      | _, _ => (Ret c, mk_frame tm detector u w1)
      end
    | (Throw e, tm, w1) => (Throw e, mk_frame tm detector u w1)
    | (Undefined f, tm, w1) => (Undefined f, mk_frame tm detector u w1)
    | (Spinning, tm, w1) => (Spinning, mk_frame tm detector u w1)
    end
  end.

(** [operator->] followed by a member call on the pooled object. *)
Definition arrow (c : interactive_pool_scoped_connection)
    (member : T -> outcome unit * T)
  : outcome unit * interactive_pool_scoped_connection :=
  match _p c with
  | Some t =>
    let '(r, t') := member t in
    (r, {| _p := Some t'; _pool := _pool c; _detector := _detector c |})
  | None => (Undefined null_dereference, c)
  end.

(** The destructor. *)
Definition delete_scoped_connection (c : interactive_pool_scoped_connection)
    (w : world T) : world T :=
  match _p c, _pool c with
  | Some _, address => snd (set_item (_p c) w)
  | _, _ => w
  end.

(** A block that declares a scoped connection and calls a member of the
    pooled object through it, as the workers of the examples do. The
    destructor runs when the block is left, whether the member call returned
    or threw. It does not run while the member call has not come back, nor
    after undefined behaviour, nor when the constructor did not finish. *)
Definition scoped_block (fuel : nat) (pool : pointer)
    (max_wait_ms : option Z) (time_elapsed_ms : option interactive_pool_time)
    (detector : option D) (member : T -> outcome unit * T)
    (u : U) (w : world T) : outcome unit * frame :=
  match new_scoped_connection fuel pool max_wait_ms time_elapsed_ms
                              detector u w with
  | (Ret c, fr) =>
    let '(r, c') := arrow c member in
    match r with
    | Ret _ | Throw _ =>
      (r, mk_frame (the_time fr) (the_detector fr) (the_user fr)
                   (delete_scoped_connection c' (the_world fr)))
    | Undefined _ | Spinning => (r, fr)
    end
  | (Throw e, fr) => (Throw e, fr)
  | (Undefined f, fr) => (Undefined f, fr)
  | (Spinning, fr) => (Spinning, fr)
  end.

End ScopedConnection.

(** ** Callers of the pool *)

Section Callers.

Context {T : Type}.
Variable now : nat -> Z.
Variable ticks_per_ms : Z.

(** What a caller does with the pool: [get_item], or [set_item] on one of
    the handles it got from [get_item] and has not given back, picked by its
    position among them. *)
Inductive operation : Type :=
| op_get_item (max_wait_ms : option Z)
              (time_elapsed_ms : option interactive_pool_time)
| op_set_item (k : nat).

Record callers : Type := mk_callers {
  shared : world T;
  checked_out : list T
}.

Fixpoint drop_nth {A : Type} (k : nat) (l : list A) : list A :=
  match l, k with
  | [], _ => []
  | _ :: l', O => l'
  | a :: l', S k' => a :: drop_nth k' l'
  end.

Definition perform (fuel : nat) (c : callers) (o : operation) : callers :=
  match o with
  | op_get_item max_wait_ms time_elapsed_ms =>
    match get_item now ticks_per_ms fuel max_wait_ms time_elapsed_ms
                   (shared c) with
    | (Ret (Some t), _, w) => mk_callers w (checked_out c ++ [t])
    | (_, _, w) => mk_callers w (checked_out c)
    end
  | op_set_item k =>
    match nth_error (checked_out c) k with
    | Some t =>
      mk_callers (snd (set_item (Some t) (shared c)))
                 (drop_nth k (checked_out c))
    | None => c
    end
  end.

Definition perform_all (fuel : nat) (c : callers) (os : list operation)
  : callers :=
  fold_left (perform fuel) os c.

(** No free item is null, and the free items and the handles that are out
    add up to [size]. *)
Definition accounted (size : N) (c : callers) : Prop :=
  Forall (fun i => is_null i = false) (_freeItems (pool (shared c))) /\
  _initialSize (pool (shared c)) = size /\
  (get_available_count (pool (shared c))
   + N.of_nat (List.length (checked_out c)) = size)%N.

End Callers.

Arguments callers T : clear implicits.

Definition fresh_world {T : Type} (p : interactive_pool T) : world T :=
  {| pool := p; reads := 0; trace := [] |}.

Definition monotone_clock (now : nat -> Z) : Prop :=
  forall i j : nat, (i <= j)%nat -> now i <= now j.

(** ** Callers in the examples *)

Section Workers.

Context {T U D : Type} `{base_detector U D}.
Variable now : nat -> Z.
Variable ticks_per_ms : Z.

(** [n] calls of [get_item] one after the other, each trying once; what
    each call gave, in order. *)
Fixpoint drain (fuel n : nat) (w : world T)
  : list (outcome (item T)) * world T :=
  match n with
  | O => ([], w)
  | S n' =>
    let '(r, _, w1) := get_item now ticks_per_ms fuel (Some 0) None w in
    let '(rs, w2) := drain fuel n' w1 in
    (r :: rs, w2)
  end.

(** The workers of [scoped_pool_with_metric],
    [scoped_pool_with_peak_time_control] and
    [scoped_pool_with_test_item_function]: [operations] blocks, each with a
    fresh [interactive_pool_time] (whose members start out as anything,
    [junk]) and a scoped connection on which one member is called; a caught
    exception takes [i] back by one, so that block is tried again; a sleep
    of [interval] ms ends every pass. Printing is left out. At most
    [passes] passes of the [for] loop are run. *)
Fixpoint scoped_worker (passes fuel : nat) (operations interval : Z)
    (max_wait_ms : option Z) (junk : interactive_pool_time)
    (member : T -> outcome unit * T) (i : Z)
    (detector : option D) (u : U) (w : world T) : outcome unit * frame :=
  match passes with
  | O => (Spinning, mk_frame None detector u w)
  | S passes' =>
    if i <? operations
    then
      match scoped_block now ticks_per_ms fuel address max_wait_ms
                         (Some junk) detector member u w with
      | (Ret _, fr) =>
        scoped_worker passes' fuel operations interval max_wait_ms junk
                      member (i + 1) (the_detector fr) (the_user fr)
                      (emit (the_world fr) [ev_sleep interval])
      | (Throw _, fr) =>
        scoped_worker passes' fuel operations interval max_wait_ms junk
                      member (i - 1 + 1) (the_detector fr) (the_user fr)
                      (emit (the_world fr) [ev_sleep interval])
      | (Undefined f, fr) => (Undefined f, fr)
      | (Spinning, fr) => (Spinning, fr)
      end
    else (Ret tt, mk_frame None detector u w)
  end.

(** A property of the detector under which [set_elapsed_time] returns, and
    which it keeps. *)
Definition kept_by_detector (Inv : D -> Prop) : Prop :=
  forall (v : Z) (d : D) (u : U),
    Inv d ->
    fst (fst (set_elapsed_time v d u)) = Ret tt /\
    Inv (snd (fst (set_elapsed_time v d u))).

Definition holds_for (Inv : D -> Prop) (detector : option D) : Prop :=
  match detector with
  | Some d => Inv d
  | None => True
  end.

(** One turn of a free list under a block that calls [member]: the front
    item goes to the back, as [member] left it. *)
Definition turn (member : T -> outcome unit * T) (l : list (item T))
  : list (item T) :=
  match l with
  | Some t :: rest => rest ++ [Some (snd (member t))]
  | _ => l
  end.

End Workers.

(** *** examples/simple_scoped_pool_without_metric *)

Record MyConnection : Type := mk_connection {
  bConnected : bool
}.

Definition Connect (c : MyConnection) : MyConnection :=
  {| bConnected := true |}.

Definition isConnected (c : MyConnection) : bool := bConnected c.

Definition ping (c : MyConnection) : bool := true.

Record MyConnectors : Type := mk_connectors {
  _driver : MyConnection
}.

Definition new_MyConnectors : MyConnectors :=
  {| _driver := {| bConnected := false |} |}.

Definition is_connected (c : MyConnectors) : bool * MyConnectors :=
  let d := if negb (isConnected (_driver c))
           then Connect (_driver c)
           else let _ := ping (_driver c) in _driver c in
  (isConnected d, {| _driver := d |}).

Definition execute (command : string) (c : MyConnectors) : MyConnectors := c.

Section SimpleWorker.

Variable now : nat -> Z.
Variable ticks_per_ms : Z.

(** [worker]: [get_item(1000)], the connection test and the command, then
    [set_item]; a caught exception takes [i] back by one. *)
Fixpoint worker (passes fuel : nat) (operations interval : Z) (i : Z)
    (w : world MyConnectors) : outcome unit * world MyConnectors :=
  match passes with
  | O => (Spinning, w)
  | S passes' =>
    if i <? operations
    then
      match get_item now ticks_per_ms fuel (Some 1000) None w with
      | (Ret (Some c), _, w1) =>
        let '(ok, c1) := is_connected c in
        let c2 := if ok then execute "keys *" c1 else c1 in
        let '(_, w2) := set_item (Some c2) w1 in
        worker passes' fuel operations interval (i + 1)
               (emit w2 [ev_sleep interval])
      | (Ret None, _, w1) => (Undefined null_dereference, w1)
      | (Throw _, _, w1) =>
        worker passes' fuel operations interval (i - 1 + 1)
               (emit w1 [ev_sleep interval])
      | (Undefined f, _, w1) => (Undefined f, w1)
      | (Spinning, _, w1) => (Spinning, w1)
      end
    else (Ret tt, w)
  end.

End SimpleWorker.

(** ** A concrete setting for runs

    A clock with 1000000 ticks in a millisecond that advances one
    millisecond per reading, a pooled object that counts the calls made on
    it, and detectors whose callback writes its invocations down. *)

Definition tick_clock (k : nat) : Z := 1000000 * Z.of_nat k.

Definition ticks_in_ms : Z := 1000000.

Definition stuck_clock (k : nat) : Z := 0.

(** A clock that is set back by a millisecond before every reading. *)
Definition falling_clock (k : nat) : Z := - (1000000 * Z.of_nat k).

Definition Write (t : nat) : outcome unit * nat := (Ret tt, S t).

Definition failing_Write (t : nat) : outcome unit * nat :=
  (Throw (runtime_error "Write failed"), S t).

Definition call_log : Type := list (nat * Z * Z).

Definition average_3_100 : Average.interactive_average_detector nat call_log :=
  Average.new_detector 7%nat 3 100 record_call.

Definition pool_of (size : N) : world nat :=
  fresh_world (new_interactive_pool 0%nat size).

(** * Properties *)

(** Hands the arguments of the call of [get_item_loop] in the goal to [k]. *)
Ltac with_loop_call k :=
  match goal with
  | |- context [get_item_loop _ _ ?f ?m ?t0 ?s ?w] => k f m t0 s w
  end.

Section PoolProperties.

Context {T : Type}.
Variable make_T : T.
Variable now : nat -> Z.
Variable ticks_per_ms : Z.

Lemma new_interactive_pool_length (size : N) :
  List.length (_freeItems (new_interactive_pool make_T size)) = N.to_nat size.
Proof.
  unfold new_interactive_pool; simpl.
  now rewrite length_map, repeat_length.
Qed.

Lemma new_interactive_pool_no_null (size : N) :
  Forall (fun i => is_null i = false)
         (_freeItems (new_interactive_pool make_T size)).
Proof.
  unfold new_interactive_pool; simpl.
  induction (N.to_nat size) as [|n IH]; simpl; constructor; auto.
Qed.

(** What the loop can do to the pool: take the front item, or nothing. *)
Lemma get_item_loop_cases (fuel : nat) (max_wait_ms t0 : Z)
    (tm : option interactive_pool_time) (w : world T) :
  let res := get_item_loop now ticks_per_ms fuel max_wait_ms t0 tm w in
  (exists j rest,
      _freeItems (pool w) = j :: rest /\
      fst (fst res) = Ret j /\
      pool (snd res) = mk_pool (_initialSize (pool w)) rest) \/
  ((fst (fst res) = Throw all_in_use \/ fst (fst res) = Spinning) /\
   pool (snd res) = pool w).
Proof.
  revert w.
  induction fuel as [|fuel IH]; intros w; simpl.
  - right; auto.
  - destruct (_freeItems (pool w)) as [|j rest] eqn:Hfree.
    + destruct (now (reads w) - t0 <? max_wait_ms * ticks_per_ms).
      * with_loop_call ltac:(fun _ _ _ _ w' => specialize (IH w'); simpl in IH).
        rewrite Hfree in IH.
        destruct IH as [(j & rest & Habs & _)|IH]; [discriminate|].
        right; exact IH.
      * right; simpl; auto.
    + left; exists j, rest.
      destruct tm; simpl; auto.
Qed.

Lemma get_item_cases (fuel : nat) (max_wait_ms : option Z)
    (tm : option interactive_pool_time) (w : world T) :
  let res := get_item now ticks_per_ms fuel max_wait_ms tm w in
  (exists j rest,
      _freeItems (pool w) = j :: rest /\
      fst (fst res) = Ret j /\
      pool (snd res) = mk_pool (_initialSize (pool w)) rest) \/
  ((fst (fst res) = Throw all_in_use \/ fst (fst res) = Spinning) /\
   pool (snd res) = pool w).
Proof.
  unfold get_item; simpl.
  destruct tm as [tm|];
    with_loop_call ltac:(fun f m t0 s w' =>
                           exact (get_item_loop_cases f m t0 s w')).
Qed.

Lemma drop_nth_length {A : Type} (k : nat) (l : list A) (a : A) :
  nth_error l k = Some a ->
  S (List.length (drop_nth k l)) = List.length l.
Proof.
  revert k; induction l as [|b l IH]; intros [|k] Hk; simpl in *;
    try discriminate; auto.
Qed.

Lemma perform_accounted (size : N) (fuel : nat) (c : callers T)
    (o : operation) :
  accounted size c -> accounted size (perform now ticks_per_ms fuel c o).
Proof.
  intros (Hnull & Hsize & Hsum).
  destruct o as [m tm|k]; simpl.
  - pose proof (get_item_cases fuel m tm (shared c)) as Hc; simpl in Hc.
    destruct (get_item now ticks_per_ms fuel m tm (shared c))
      as [[r tm'] w'] eqn:Hget; simpl in Hc.
    destruct Hc as [(j & rest & Hfree & Hr & Hpool)|[Hr Hpool]].
    + subst r. rewrite Hfree in Hnull.
      inversion Hnull as [|? ? Hj Hrest]; subst.
      unfold get_available_count in Hsum; rewrite Hfree in Hsum.
      simpl List.length in Hsum.
      destruct j as [t|]; [|discriminate Hj].
      unfold accounted, get_available_count; simpl; rewrite Hpool; simpl.
      repeat split; auto.
      rewrite length_app; simpl. lia.
    + assert (Hsame : accounted size (mk_callers w' (checked_out c))).
      { unfold accounted; simpl; rewrite Hpool; auto. }
      destruct Hr as [Hr|Hr]; subst r; exact Hsame.
  - destruct (nth_error (checked_out c) k) as [t|] eqn:Hk.
    + apply drop_nth_length in Hk.
      unfold accounted, get_available_count in *; simpl.
      repeat split; auto.
      * apply Forall_app; split; auto.
      * rewrite length_app; simpl. lia.
    + unfold accounted; auto.
Qed.

Lemma perform_all_accounted (size : N) (fuel : nat) (os : list operation)
    (c : callers T) :
  accounted size c -> accounted size (perform_all now ticks_per_ms fuel c os).
Proof.
  revert c; induction os as [|o os IH]; intros c Hc; simpl; auto.
  apply IH, perform_accounted, Hc.
Qed.

(** C1. Resource conservation: a pool built with [size] items reports
    [size] free items, and after any sequence of [get_item] and [set_item]
    operations run from that pool (so also after each prefix of one) the free
    items plus the handles that are checked out number [size]. *)
Theorem pool_resource_conservation :
  (forall size : N,
      get_available_count (new_interactive_pool make_T size) = size) /\
  (forall (size : N) (fuel : nat) (os : list operation),
      let c := perform_all now ticks_per_ms fuel
                 (mk_callers (fresh_world (new_interactive_pool make_T size))
                             [])
                 os in
      (get_available_count (pool (shared c))
       + N.of_nat (List.length (checked_out c)) = size)%N).
Proof.
  assert (Hnew : forall size : N,
             get_available_count (new_interactive_pool make_T size) = size).
  { intros size; unfold get_available_count.
    rewrite new_interactive_pool_length. apply N2Nat.id. }
  split; [exact Hnew|].
  intros size fuel os c.
  assert (Hc : accounted size c).
  { apply perform_all_accounted.
    unfold accounted; simpl.
    repeat split.
    - apply new_interactive_pool_no_null.
    - rewrite (Hnew size). apply N.add_0_r. }
  apply Hc.
Qed.

(** C6. [check_before_destruct] returns exactly when the free list has as
    many items as the pool was built with; otherwise it throws the error
    whose message names the initial size and then the current count; the pool
    is the same afterwards in both cases. *)
Theorem check_before_destruct_spec (p : interactive_pool T) :
  snd (check_before_destruct p) = p /\
  (fst (check_before_destruct p) = Ret tt <->
   get_available_count p = _initialSize p) /\
  (get_available_count p <> _initialSize p ->
   fst (check_before_destruct p) =
   Throw (runtime_error
     ("interactive_pool: Different count of items. Pool was created with ["
      ++ to_string (_initialSize p)
      ++ "] but during destruction have ["
      ++ to_string (get_available_count p) ++ "]")%string)).
Proof.
  unfold check_before_destruct, get_available_count, leak_message.
  destruct (N.eqb_spec (N.of_nat (List.length (_freeItems p)))
                       (_initialSize p)) as [Heq|Hne]; simpl.
  - repeat split; auto. intros Hne; contradiction.
  - repeat split; auto; try discriminate. intros Heq; contradiction.
Qed.

Lemma count_events_app (f : event -> bool) (a b : list event) :
  count_events f (a ++ b) = (count_events f a + count_events f b)%nat.
Proof.
  unfold count_events. now rewrite filter_app, length_app.
Qed.

(** With [max_wait_ms = 0] and nothing free, one pass through the loop
    body ends the call. *)
Lemma get_item_single_pass (fuel : nat) (tm : option interactive_pool_time)
    (w : world T) :
  monotone_clock now ->
  _freeItems (pool w) = [] ->
  get_item now ticks_per_ms (S fuel) (Some 0) tm w =
  (Throw all_in_use,
   match tm with
   | Some s => Some {| init := now (S (reads w)); finish := finish s;
                       elapsed_time := elapsed_time s |}
   | None => None
   end,
   {| pool := pool w;
      reads := match tm with
               | Some _ => 3 + reads w
               | None => 2 + reads w
               end;
      trace := trace w ++
               match tm with
               | Some _ => [ev_stamp_init (now (S (reads w)))]
               | None => []
               end ++ [ev_lock_check true; ev_sleep 1] |}).
Proof.
  intros Hmono Hfree.
  unfold get_item; simpl.
  destruct tm as [tm|]; simpl; rewrite Hfree.
  - assert (Hle : now (reads w) <= now (S (S (reads w)))) by (apply Hmono; lia).
    destruct (Z.ltb_spec (now (S (S (reads w))) - now (reads w)) 0);
      [lia|].
    unfold emit; simpl. rewrite <- !app_assoc. reflexivity.
  - assert (Hle : now (reads w) <= now (S (reads w))) by (apply Hmono; lia).
    destruct (Z.ltb_spec (now (S (reads w)) - now (reads w)) 0); [lia|].
    unfold emit; simpl. rewrite <- !app_assoc. reflexivity.
Qed.

(** C2, as amended. [get_item] with [max_wait_ms = 0] on an empty free
    list, under a clock that does not run backwards: whatever the iteration
    budget, the loop body runs once (one look at the free list under the
    lock, followed by the single fixed sleep of 1 ms that precedes the loop
    test), the call throws "interactive_pool: All items are in use", and the
    pool is as before. *)
Theorem get_item_zero_wait_on_empty (fuel : nat)
    (tm : option interactive_pool_time) (w : world T) :
  monotone_clock now ->
  _freeItems (pool w) = [] ->
  let res := get_item now ticks_per_ms (S fuel) (Some 0) tm w in
  let evs := match tm with
             | Some _ => [ev_stamp_init (now (S (reads w)))]
             | None => []
             end ++ [ev_lock_check true; ev_sleep 1] in
  fst (fst res) = Throw (runtime_error "interactive_pool: All items are in use")
  /\ pool (snd res) = pool w
  /\ trace (snd res) = trace w ++ evs
  /\ count_events is_lock_check evs = 1%nat
  /\ count_events is_sleep evs = 1%nat.
Proof.
  intros Hmono Hfree res evs; subst res evs.
  rewrite (get_item_single_pass fuel tm w Hmono Hfree); simpl.
  destruct tm; repeat split; reflexivity.
Qed.

Lemma get_item_loop_sample (fuel : nat) (max_wait_ms t0 : Z)
    (s : interactive_pool_time) (w : world T) :
  let res := get_item_loop now ticks_per_ms fuel max_wait_ms t0 (Some s) w in
  exists s' evs,
    snd (fst res) = Some s' /\
    init s' = init s /\
    trace (snd res) = trace w ++ evs /\
    count_events is_stamp_init evs = 0%nat /\
    match fst (fst res) with
    | Ret _ =>
      exists pre,
        evs = pre ++ [ev_lock_check false; ev_pop_front;
                      ev_stamp_finish (finish s')] /\
        count_events is_stamp_finish pre = 0%nat /\
        finish s' = now (pred (reads (snd res))) /\
        elapsed_time s' = Z.quot (finish s' - init s') ticks_per_ms
    | _ => s' = s /\ count_events is_stamp_finish evs = 0%nat
    end.
Proof.
  revert w; induction fuel as [|fuel IH]; intros w; simpl.
  - exists s, []. rewrite app_nil_r. repeat split; reflexivity.
  - destruct (_freeItems (pool w)) as [|j rest] eqn:Hfree.
    + destruct (now (reads w) - t0 <? max_wait_ms * ticks_per_ms).
      * with_loop_call ltac:(fun _ _ _ _ w' => specialize (IH w'); simpl in IH).
        destruct IH as (s' & evs & Hs & Hinit & Htr & Hcnt & Hout).
        exists s', ([ev_lock_check true; ev_sleep 1] ++ evs).
        repeat split; auto.
        -- rewrite Htr, <- !app_assoc. reflexivity.
        -- match goal with
           | |- match fst (fst ?r) with _ => _ end =>
               destruct (fst (fst r))
           end;
           try (destruct Hout as [Hsame Hfin]; split; auto;
                rewrite count_events_app, Hfin; reflexivity).
           destruct Hout as (pre & Hevs & Hpre & Hfin & Hel).
           exists ([ev_lock_check true; ev_sleep 1] ++ pre).
           rewrite Hevs. repeat split; auto.
      * exists s, [ev_lock_check true; ev_sleep 1]; simpl.
        rewrite <- app_assoc. repeat split; reflexivity.
    + eexists; exists [ev_lock_check false; ev_pop_front;
                       ev_stamp_finish (now (reads w))]; simpl.
      rewrite <- app_assoc. repeat split; auto.
      exists []. repeat split; reflexivity.
Qed.

(** C7. [get_item] with a sample: in every case (the call returns, throws,
    or is still in its loop) the sample's [init] holds the reading taken
    right after [t0] and that stamp is the first thing the call does, before
    any look at the free list; when no handle is obtained, [finish] and
    [elapsed_time] are what they were at entry and no finish stamp happens;
    when a handle is obtained, the one finish stamp comes right after the
    item leaves the free list, [finish] is the last reading taken and
    [elapsed_time] is [finish - init] cast to whole milliseconds. *)
Theorem get_item_sample_frame (fuel : nat) (max_wait_ms : option Z)
    (tm : interactive_pool_time) (w : world T) :
  let res := get_item now ticks_per_ms fuel max_wait_ms (Some tm) w in
  exists tm' evs,
    snd (fst res) = Some tm' /\
    init tm' = now (S (reads w)) /\
    trace (snd res) = trace w ++ ev_stamp_init (init tm') :: evs /\
    count_events is_stamp_init evs = 0%nat /\
    match fst (fst res) with
    | Ret _ =>
      exists pre,
        evs = pre ++ [ev_lock_check false; ev_pop_front;
                      ev_stamp_finish (finish tm')] /\
        count_events is_stamp_finish pre = 0%nat /\
        finish tm' = now (pred (reads (snd res))) /\
        elapsed_time tm' = Z.quot (finish tm' - init tm') ticks_per_ms
    | _ =>
      finish tm' = finish tm /\
      elapsed_time tm' = elapsed_time tm /\
      count_events is_stamp_finish evs = 0%nat
    end.
Proof.
  unfold get_item; simpl.
  match goal with
  | |- context [get_item_loop _ _ ?f ?m ?t0 (Some ?s) ?w'] =>
      pose proof (get_item_loop_sample f m t0 s w') as Hloop;
      simpl in Hloop;
      destruct (get_item_loop now ticks_per_ms f m t0 (Some s) w')
        as [[r tm1] w1]
  end.
  simpl in *.
  destruct Hloop as (s' & evs & Hs & Hinit & Htr & Hcnt & Hout).
  exists s', evs.
  repeat split; auto.
  - rewrite Htr, <- app_assoc, Hinit. reflexivity.
  - destruct r; try (destruct Hout as [Hsame Hfin]; subst s'; auto).
    exact Hout.
Qed.

End PoolProperties.

Section DetectorProperties.

Context {Id : Type}.

Lemma feed_app {U D : Type} `{base_detector U D} (l1 l2 : list Z) (d : D)
    (u : U) :
  feed (l1 ++ l2) d u =
  match feed l1 d u with
  | (Ret _, d', u') => feed l2 d' u'
  | other => other
  end.
Proof.
  revert d u; induction l1 as [|i l1 IH]; intros d u; simpl; auto.
  destruct (set_elapsed_time i d u) as [[[[]| | |] d'] u']; auto.
Qed.

(** The peak detector keeps nothing from one call to the next. *)
Lemma peak_feed_returns {U : Type} (history : list Z)
    (d : Peak.interactive_peak_detector Id U) (u : U) :
  exists u1, feed history d u = (Ret tt, d, u1).
Proof.
  revert u; induction history as [|i l IH]; intros u; simpl.
  - now exists u.
  - unfold Peak.set_elapsed_time.
    destruct (i >? Peak._trigger_level d); apply IH.
Qed.

(** C4. Peak detector: after any history of earlier calls, a call with [v]
    applies the stored callback, to exactly [(id, t, v)], when [v > t] and
    does nothing when not; the detector itself never changes. With the
    callback that writes its invocations down, one entry [(id, t, v)] is
    added iff [t < v]. *)
Theorem peak_detector_fires_iff {U : Type} (id : Id) (t v : Z)
    (history : list Z) :
  (forall (fcn : Id -> Z -> Z -> U -> U) (u : U),
      let d := Peak.new_detector id t fcn in
      exists u1,
        feed history d u = (Ret tt, d, u1) /\
        feed (history ++ [v]) d u =
        (Ret tt, d, if v >? t then fcn id t v u1 else u1)) /\
  (forall log : list (Id * Z * Z),
      let d := Peak.new_detector id t record_call in
      exists log1,
        feed history d log = (Ret tt, d, log1) /\
        (t < v <-> snd (feed (history ++ [v]) d log) = log1 ++ [(id, t, v)]) /\
        (~ t < v <-> snd (feed (history ++ [v]) d log) = log1)).
Proof.
  split.
  - intros fcn u d.
    destruct (peak_feed_returns history d u) as [u1 Hu1].
    exists u1; split; auto.
    rewrite feed_app, Hu1; simpl.
    unfold Peak.set_elapsed_time; simpl.
    destruct (v >? t); reflexivity.
  - intros log d.
    destruct (peak_feed_returns history d log) as [log1 Hlog1].
    exists log1; split; auto.
    rewrite feed_app, Hlog1; simpl.
    unfold Peak.set_elapsed_time; simpl.
    destruct (Z.gtb_spec v t) as [Hgt|Hle]; simpl; unfold record_call.
    + split; split; auto; try lia.
      intros Habs. apply (f_equal (@List.length _)) in Habs.
      rewrite length_app in Habs; simpl in Habs; lia.
    + split; split; auto; try lia.
      intros Habs. apply (f_equal (@List.length _)) in Habs.
      rewrite length_app in Habs; simpl in Habs; lia.
Qed.

Lemma to_uint32_to_int32 (z : Z) : to_uint32 (to_int32 z) = to_uint32 z.
Proof.
  unfold to_int32, to_uint32, uint32_modulus.
  destruct (z mod 2 ^ 32 <? 2 ^ 31).
  - apply Z.mod_mod. lia.
  - replace (z mod 2 ^ 32 - 2 ^ 32) with (z mod 2 ^ 32 + (-1) * 2 ^ 32) by lia.
    rewrite Z_mod_plus_full. apply Z.mod_mod. lia.
Qed.

Lemma to_uint32_add_l (a a' b : Z) :
  to_uint32 a = to_uint32 a' -> to_uint32 (a + b) = to_uint32 (a' + b).
Proof.
  unfold to_uint32; intros Heq.
  rewrite (Zplus_mod a), (Zplus_mod a'), Heq. reflexivity.
Qed.

Lemma fold_accumulate (s : list Z) (acc : Z) :
  to_uint32 (fold_left (fun a x => to_int32 (to_uint32 a + x)) s acc) =
  to_uint32 (acc + total s).
Proof.
  revert acc; induction s as [|x s IH]; intros acc; simpl.
  - now rewrite Z.add_0_r.
  - rewrite IH, Z.add_assoc.
    apply to_uint32_add_l.
    rewrite to_uint32_to_int32.
    unfold to_uint32.
    apply Z.add_mod_idemp_l. unfold uint32_modulus; lia.
Qed.

(** The [int] accumulation, read back as unsigned, is the sum modulo 2^32. *)
Lemma accumulate_total (s : list Z) :
  to_uint32 (Average.accumulate s) = to_uint32 (total s).
Proof.
  unfold Average.accumulate. now rewrite fold_accumulate.
Qed.

(** One call on a window that holds as many samples as its nominal size. *)
Lemma average_step_on_full {U : Type} (i : Z)
    (d : Average.interactive_average_detector Id U) (u : U) :
  (1 <= Average._samples_count d)%N ->
  List.length (Average._samples d) = N.to_nat (Average._samples_count d) ->
  let s2 := tl (Average._samples d) ++ [i] in
  let n := to_uint32 (Z.of_N (Average._samples_count d)) in
  let cur := to_uint32 (total s2) / n in
  List.length s2 = N.to_nat (Average._samples_count d) /\
  Average.set_elapsed_time i d u =
  if n =? 0
  then (Undefined division_by_zero, Average.with_samples d s2, u)
  else (Ret tt, Average.with_samples d s2,
        if cur >? Average._trigger_level d
        then Average._lcall_back d (Average._id d)
                                 (Average._trigger_level d) cur u
        else u).
Proof.
  intros Hpos Hlen s2 n cur; subst s2 n cur.
  unfold Average.set_elapsed_time.
  destruct (Average._samples d) as [|x rest] eqn:Hs; simpl in Hlen; [lia|].
  simpl tl.
  assert (Hlen2 : List.length (rest ++ [i])
                  = N.to_nat (Average._samples_count d)).
  { rewrite length_app; simpl. lia. }
  split; [exact Hlen2|].
  replace (Average._samples_count d <=? N.of_nat (List.length (x :: rest)))%N
    with true by (symmetry; apply N.leb_le; simpl List.length; lia).
  simpl Average._samples. simpl Average._samples_count.
  replace (N.of_nat (List.length (rest ++ [i]))
           =? Average._samples_count d)%N
    with true by (symmetry; apply N.eqb_eq; lia).
  unfold Average.average.
  destruct (rest ++ [i]) as [|y s'] eqn:Hs2.
  { destruct rest; discriminate Hs2. }
  rewrite Hlen2, N_nat_Z, accumulate_total.
  destruct (to_uint32 (Z.of_N (Average._samples_count d)) =? 0);
    [reflexivity|].
  simpl Average._trigger_level. simpl Average._id. simpl Average._lcall_back.
  destruct (_ >? _); reflexivity.
Qed.

Lemma average_feed_on_full {U : Type} (inputs : list Z)
    (d : Average.interactive_average_detector Id U) (u : U) :
  (1 <= Average._samples_count d)%N ->
  List.length (Average._samples d) = N.to_nat (Average._samples_count d) ->
  let res := feed inputs d u in
  fst (fst res) <> Undefined pop_front_on_empty /\
  Average._samples_count (snd (fst res)) = Average._samples_count d /\
  List.length (Average._samples (snd (fst res)))
  = N.to_nat (Average._samples_count d) /\
  (Z.of_N (Average._samples_count d) < uint32_modulus ->
   fst (fst res) = Ret tt).
Proof.
  revert d u; induction inputs as [|i l IH]; intros d u Hpos Hlen; simpl.
  - repeat split; auto. discriminate.
  - destruct (average_step_on_full i d u Hpos Hlen) as [Hlen2 Hstep].
    simpl in Hstep; rewrite Hstep; clear Hstep.
    destruct (Z.eqb_spec (to_uint32 (Z.of_N (Average._samples_count d))) 0)
      as [Hz|Hnz]; simpl.
    + repeat split; auto; try discriminate.
      intros Hsmall. unfold to_uint32 in Hz.
      rewrite Z.mod_small in Hz by lia. lia.
    + specialize (IH (Average.with_samples d
                        (tl (Average._samples d) ++ [i]))).
      simpl in IH. apply IH; auto.
Qed.

(** What the window holds after a run of calls: the newest entries of the
    old window followed by the values passed in. Started from the
    constructor, the first [window_size - 1] calls therefore still average
    over zeros that no call put there. *)
Lemma average_window_contents {U : Type} (inputs : list Z)
    (d : Average.interactive_average_detector Id U) (u : U) :
  (1 <= Average._samples_count d)%N ->
  Z.of_N (Average._samples_count d) < uint32_modulus ->
  List.length (Average._samples d) = N.to_nat (Average._samples_count d) ->
  Average._samples (snd (fst (feed inputs d u)))
  = skipn (List.length inputs) (Average._samples d ++ inputs).
Proof.
  revert d u; induction inputs as [|i l IH]; intros d u Hpos Hsmall Hlen.
  - simpl. now rewrite app_nil_r.
  - destruct (average_step_on_full i d u Hpos Hlen) as [Hlen2 Hstep].
    simpl in Hstep. simpl feed. rewrite Hstep; clear Hstep.
    destruct (Z.eqb_spec (to_uint32 (Z.of_N (Average._samples_count d))) 0)
      as [Hz|Hnz].
    { unfold to_uint32 in Hz. rewrite Z.mod_small in Hz by lia. lia. }
    rewrite IH; auto.
    destruct (Average._samples d) as [|x rest]; simpl in Hlen; [lia|].
    simpl. now rewrite <- app_assoc.
Qed.

(** C10. An average detector built with a window size of at least one: after
    any sequence of calls the window holds no more than [window_size]
    samples (it holds exactly that many) and is not empty, and no call ever
    runs [pop_front] on an empty window; when the size also fits a
    [uint32_t] every call returns. Built with size 0, the first call runs
    [pop_front] on an empty window. *)
Theorem average_window_never_underflows {U : Type} (id : Id) (w : N) (t : Z)
    (fcn : Id -> Z -> Z -> U -> U) (inputs : list Z) (u : U) :
  (1 <= w)%N ->
  (let res := feed inputs (Average.new_detector id w t fcn) u in
   fst (fst res) <> Undefined pop_front_on_empty /\
   (N.of_nat (List.length (Average._samples (snd (fst res)))) <= w)%N /\
   List.length (Average._samples (snd (fst res))) = N.to_nat w /\
   Average._samples (snd (fst res)) <> [] /\
   (Z.of_N w < uint32_modulus -> fst (fst res) = Ret tt)) /\
  (forall i : Z,
      fst (fst (Average.set_elapsed_time
                  i (Average.new_detector id 0 t fcn) u))
      = Undefined pop_front_on_empty).
Proof.
  intros Hpos; split; [|reflexivity].
  intros res.
  destruct (average_feed_on_full inputs (Average.new_detector id w t fcn) u)
    as (Hno & Hcount & Hlen & Hret); simpl; auto.
  { apply repeat_length. }
  simpl in *. fold res in Hno, Hlen, Hret.
  repeat split; auto.
  - rewrite Hlen, N2Nat.id. apply N.le_refl.
  - intros Hnil. rewrite Hnil in Hlen. simpl in Hlen. lia.
Qed.

End DetectorProperties.

Section ScopedProperties.

Context {T U D : Type} `{base_detector U D}.
Variable now : nat -> Z.
Variable ticks_per_ms : Z.

Lemma get_item_loop_without_sample (fuel : nat) (max_wait_ms t0 : Z)
    (w : world T) :
  snd (fst (get_item_loop now ticks_per_ms fuel max_wait_ms t0 None w)) = None.
Proof.
  revert w; induction fuel as [|fuel IH]; intros w; simpl; auto.
  destruct (_freeItems (pool w)); auto.
  destruct (_ <? _); simpl; auto.
Qed.

(** [get_item] neither gives anything back to the pool nor calls a
    detector. *)
Lemma get_item_loop_events (fuel : nat) (max_wait_ms t0 : Z)
    (tm : option interactive_pool_time) (w : world T) :
  exists evs,
    trace (snd (get_item_loop now ticks_per_ms fuel max_wait_ms t0 tm w))
    = trace w ++ evs /\
    count_events is_push_back evs = 0%nat /\
    count_events is_set_elapsed_time evs = 0%nat.
Proof.
  revert w; induction fuel as [|fuel IH]; intros w; simpl.
  - exists []. now rewrite app_nil_r.
  - destruct (_freeItems (pool w)) as [|j rest].
    + destruct (_ <? _).
      * with_loop_call ltac:(fun _ _ _ _ w' =>
                               destruct (IH w') as (evs & Htr & Hpb & Hse)).
        exists ([ev_lock_check true; ev_sleep 1] ++ evs).
        rewrite Htr; simpl. rewrite <- !app_assoc. auto.
      * exists [ev_lock_check true; ev_sleep 1]; simpl.
        rewrite <- app_assoc. auto.
    + destruct tm; simpl.
      * eexists [ev_lock_check false; ev_pop_front; ev_stamp_finish _].
        rewrite <- app_assoc. simpl. auto.
      * exists [ev_lock_check false; ev_pop_front]. auto.
Qed.

Lemma get_item_events (fuel : nat) (max_wait_ms : option Z)
    (tm : option interactive_pool_time) (w : world T) :
  exists evs,
    trace (snd (get_item now ticks_per_ms fuel max_wait_ms tm w))
    = trace w ++ evs /\
    count_events is_push_back evs = 0%nat /\
    count_events is_set_elapsed_time evs = 0%nat.
Proof.
  unfold get_item; simpl.
  destruct tm as [tm|];
    with_loop_call ltac:(fun f m t0 s w' =>
      destruct (get_item_loop_events f m t0 s w') as (evs & Htr & Hpb & Hse));
    simpl in Htr.
  - exists (ev_stamp_init (now (S (reads w))) :: evs).
    rewrite Htr, <- app_assoc. auto.
  - exists evs; auto.
Qed.

Lemma get_item_sample_kept (fuel : nat) (max_wait_ms : option Z)
    (tm : option interactive_pool_time) (w : world T) :
  pointer_to (snd (fst (get_item now ticks_per_ms fuel max_wait_ms tm w)))
  = pointer_to tm.
Proof.
  unfold get_item; simpl.
  destruct tm as [tm|].
  - match goal with
    | |- context [get_item_loop _ _ ?f ?m ?t0 (Some ?s) ?w'] =>
        destruct (get_item_loop_sample now ticks_per_ms f m t0 s w')
          as (tm' & evs & Hs & _)
    end.
    now rewrite Hs.
  - now rewrite get_item_loop_without_sample.
Qed.

(** C8. The constructor, once [get_item] has given it an item: with both
    a sample and a detector, [set_elapsed_time] is called one time, on the
    sample's [elapsed_time] read as a [uint32_t] (the same number whenever
    it fits one), and the connection is built when that call returns; with
    either of them missing the connection is built and the detector and
    what the callbacks act on are untouched. When [get_item] throws, the
    constructor throws the same exception, the detector is not called, the
    pool is as [get_item] found it, nothing is ever pushed back, and a block
    around the connection ends with that exception without running the
    destructor. *)
Theorem scoped_ctor_detector_call (fuel : nat) (max_wait_ms : option Z)
    (tm : option interactive_pool_time) (det : option D) (u : U)
    (w : world T) :
  let got := get_item now ticks_per_ms fuel
               (Some (arg_or 0 max_wait_ms)) tm w in
  let res := new_scoped_connection now ticks_per_ms fuel address max_wait_ms
               tm det u w in
  let both := match det, tm with Some _, Some _ => true | _, _ => false end in
  (forall j : item T,
      fst (fst got) = Ret j ->
      match det, tm with
      | Some d, Some _ =>
        exists s,
          snd (fst got) = Some s /\
          let i := to_uint32 (elapsed_time s) in
          let step := set_elapsed_time i d u in
          (0 <= elapsed_time s < uint32_modulus -> i = elapsed_time s) /\
          the_world (snd res) = emit (snd got) [ev_set_elapsed_time i] /\
          the_detector (snd res) = Some (snd (fst step)) /\
          the_user (snd res) = snd step /\
          (fst (fst step) = Ret tt ->
           fst res = Ret {| _p := j; _pool := address; _detector := address |})
      | _, _ =>
        fst res = Ret {| _p := j; _pool := address;
                         _detector := pointer_to det |} /\
        the_detector (snd res) = det /\
        the_user (snd res) = u /\
        the_world (snd res) = snd got
      end /\
      exists evs,
        trace (the_world (snd res)) = trace w ++ evs /\
        count_events is_set_elapsed_time evs = (if both then 1 else 0)%nat /\
        count_events is_push_back evs = 0%nat) /\
  (forall e : exn,
      fst (fst got) = Throw e ->
      fst res = Throw e /\
      the_detector (snd res) = det /\
      the_user (snd res) = u /\
      the_world (snd res) = snd got /\
      pool (snd got) = pool w /\
      (exists evs,
          trace (the_world (snd res)) = trace w ++ evs /\
          count_events is_set_elapsed_time evs = 0%nat /\
          count_events is_push_back evs = 0%nat) /\
      forall member : T -> outcome unit * T,
        scoped_block now ticks_per_ms fuel address max_wait_ms tm det
                     member u w
        = (Throw e, snd res)).
Proof.
  intros got res both.
  destruct (get_item_events fuel (Some (arg_or 0 max_wait_ms)) tm w)
    as (evs & Htr & Hpb & Hse).
  pose proof (get_item_sample_kept fuel (Some (arg_or 0 max_wait_ms)) tm w)
    as Hkept.
  pose proof (get_item_cases now ticks_per_ms fuel
                (Some (arg_or 0 max_wait_ms)) tm w) as Hcases.
  fold got in Htr, Hkept, Hcases.
  subst res both.
  unfold scoped_block, new_scoped_connection.
  unfold scoped_max_wait_ms_default.
  fold got.
  destruct got as [[r tm'] w1]; simpl in *.
  split.
  - intros j Hr; subst r.
    destruct det as [d|]; destruct tm as [tm|];
      destruct tm' as [s|]; try discriminate Hkept; simpl.
    + split.
      * exists s; split; [reflexivity|].
        destruct (set_elapsed_time (to_uint32 (elapsed_time s)) d u)
          as [[[[]| | |] d'] u']; simpl; repeat split; auto;
          try discriminate;
          intros Hrange; unfold to_uint32; apply Z.mod_small; exact Hrange.
      * exists (evs ++ [ev_set_elapsed_time (to_uint32 (elapsed_time s))]).
        destruct (set_elapsed_time (to_uint32 (elapsed_time s)) d u)
          as [[[[]| | |] d'] u']; simpl;
          rewrite Htr, <- app_assoc, !count_events_app, Hpb, Hse; auto.
    + split; [auto|]. exists evs; auto.
    + split; [auto|]. exists evs; auto.
    + split; [auto|]. exists evs; auto.
  - intros e Hr; subst r.
    destruct Hcases as [(j & rest & _ & Habs & _)|[_ Hpool]];
      [discriminate Habs|].
    repeat split; auto.
    exists evs; auto.
Qed.

(** C5. Round trip of a scoped connection, on a pool whose free items are
    all real objects: when the constructor succeeds and the block is left,
    normally or by an exception of the member call on the pooled object (the
    block ends the way that call did), the block's destructor pushes the
    held item back exactly once, so the pool has as many free items after
    the block as before the constructor: the item taken from the front is
    now at the back. When the member call does not come back, or has no
    defined behaviour, the block is not left and nothing is pushed back. *)
Theorem scoped_block_round_trip (fuel : nat) (pl : pointer)
    (max_wait_ms : option Z) (tm : option interactive_pool_time)
    (det : option D) (member : T -> outcome unit * T) (u : U) (w : world T)
    (c : interactive_pool_scoped_connection) (fr : frame) :
  Forall (fun i => is_null i = false) (_freeItems (pool w)) ->
  new_scoped_connection now ticks_per_ms fuel pl max_wait_ms tm det u w
  = (Ret c, fr) ->
  let res := scoped_block now ticks_per_ms fuel pl max_wait_ms tm det
               member u w in
  (fst res = Ret tt \/ (exists e, fst res = Throw e) ->
   get_available_count (pool (the_world (snd res)))
   = get_available_count (pool w) /\
   (exists t t' rest,
       _freeItems (pool w) = Some t :: rest /\
       _p c = Some t /\
       member t = (fst res, t') /\
       _freeItems (pool (the_world (snd res))) = rest ++ [Some t']) /\
   (exists evs,
       trace (the_world (snd res)) = trace w ++ evs /\
       count_events is_push_back evs = 1%nat)) /\
  (fst res = Spinning \/ (exists f, fst res = Undefined f) ->
   (exists t rest,
       _freeItems (pool w) = Some t :: rest /\
       _p c = Some t /\
       fst (member t) = fst res /\
       _freeItems (pool (the_world (snd res))) = rest) /\
   (exists evs,
       trace (the_world (snd res)) = trace w ++ evs /\
       count_events is_push_back evs = 0%nat)).
Proof.
  intros Hnull Hctor res; subst res.
  unfold scoped_block; rewrite Hctor.
  unfold new_scoped_connection in Hctor.
  destruct pl; [discriminate Hctor|].
  destruct (get_item_events fuel
              (Some (arg_or scoped_max_wait_ms_default max_wait_ms)) tm w)
    as (evs & Htr & Hpb & Hse).
  pose proof (get_item_cases now ticks_per_ms fuel
                (Some (arg_or scoped_max_wait_ms_default max_wait_ms)) tm w)
    as Hcases.
  destruct (get_item now ticks_per_ms fuel
              (Some (arg_or scoped_max_wait_ms_default max_wait_ms)) tm w)
    as [[r tm'] w1]; simpl in *.
  destruct r as [j| | |]; try discriminate Hctor.
  destruct Hcases as [(j0 & rest & Hfree & Hj & Hpool)|[[Habs|Habs] _]];
    try discriminate Habs.
  injection Hj as <-.
  rewrite Hfree in Hnull. inversion Hnull as [|? ? Hjn _]; subst.
  destruct j as [t|]; [|discriminate Hjn].
  assert (Hfr : fst (Ret c, fr) = Ret c /\
                _p c = Some t /\ _pool c = address /\
                pool (the_world fr) = mk_pool (_initialSize (pool w)) rest /\
                exists evs', trace (the_world fr) = trace w ++ evs' /\
                             count_events is_push_back evs' = 0%nat).
  { destruct det as [d|]; destruct tm' as [s|];
      try (injection Hctor as <- <-; simpl; repeat split; auto;
           exists evs; auto).
    destruct (set_elapsed_time (to_uint32 (elapsed_time s)) d u)
      as [[[[]| | |] d'] u']; try discriminate Hctor.
    injection Hctor as <- <-; simpl; repeat split; auto.
    exists (evs ++ [ev_set_elapsed_time (to_uint32 (elapsed_time s))]).
    rewrite Htr, <- app_assoc, count_events_app, Hpb. auto. }
  destruct Hfr as (_ & Hp & Hpl & Hpoolfr & evs' & Htr' & Hpb').
  unfold arrow; rewrite Hp.
  destruct (member t) as [r t'] eqn:Hmember.
  assert (Hleft :
            get_available_count
              (pool (delete_scoped_connection
                       {| _p := Some t'; _pool := _pool c;
                          _detector := _detector c |} (the_world fr)))
            = get_available_count (pool w) /\
            _freeItems
              (pool (delete_scoped_connection
                       {| _p := Some t'; _pool := _pool c;
                          _detector := _detector c |} (the_world fr)))
            = rest ++ [Some t'] /\
            exists evs0,
              trace (delete_scoped_connection
                       {| _p := Some t'; _pool := _pool c;
                          _detector := _detector c |} (the_world fr))
              = trace w ++ evs0 /\
              count_events is_push_back evs0 = 1%nat).
  { unfold delete_scoped_connection; simpl. rewrite Hpl; simpl.
    rewrite Hpoolfr; simpl.
    unfold get_available_count; simpl.
    repeat split.
    - rewrite Hfree, length_app; simpl. f_equal. lia.
    - exists (evs' ++ [ev_push_back]).
      rewrite Htr', <- app_assoc, count_events_app, Hpb'. auto. }
  destruct Hleft as (Hcount & Hitems & Hevs).
  destruct r as [[]|e|f|]; simpl; split;
    try (intros [Habs|[? Habs]]; discriminate Habs).
  - intros _. repeat split; auto. exists t, t', rest. auto.
  - intros _. repeat split; auto. exists t, t', rest. auto.
  - intros _. split.
    + exists t, rest. rewrite Hpoolfr, Hmember. repeat split; auto.
    + exists evs'. auto.
  - intros _. split.
    + exists t, rest. rewrite Hpoolfr, Hmember. repeat split; auto.
    + exists evs'. auto.
Qed.

(** C9, as amended. Leaving [max_wait_ms] out: the scoped constructor
    then waits 0 ms while [get_item] itself then waits up to 4294967295 ms.
    So on an empty free list, under a clock that does not run backwards, a
    scoped connection built without [max_wait_ms] throws "interactive_pool:
    All items are in use" after one pass through the loop (one look at the
    free list and one sleep of 1 ms), whatever the iteration budget, and
    leaves the pool, the detector and what the callbacks act on as they
    were. *)
Theorem scoped_default_wait_fails_at_once (fuel : nat)
    (tm : option interactive_pool_time) (det : option D) (u : U)
    (w : world T) :
  monotone_clock now ->
  _freeItems (pool w) = [] ->
  let res := new_scoped_connection now ticks_per_ms (S fuel) address None
               tm det u w in
  (forall f, new_scoped_connection now ticks_per_ms f address None tm det u w
             = new_scoped_connection now ticks_per_ms f address (Some 0)
                                     tm det u w) /\
  (forall f, get_item now ticks_per_ms f None tm w
             = get_item now ticks_per_ms f (Some 4294967295) tm w) /\
  fst res = Throw (runtime_error "interactive_pool: All items are in use") /\
  pool (the_world (snd res)) = pool w /\
  the_detector (snd res) = det /\
  the_user (snd res) = u /\
  exists evs,
    trace (the_world (snd res)) = trace w ++ evs /\
    count_events is_lock_check evs = 1%nat /\
    count_events is_sleep evs = 1%nat.
Proof.
  intros Hmono Hfree res; subst res.
  split; [reflexivity|]. split; [reflexivity|].
  unfold new_scoped_connection; simpl arg_or.
  unfold scoped_max_wait_ms_default.
  rewrite (get_item_single_pass now ticks_per_ms fuel tm w Hmono Hfree).
  simpl.
  repeat split; auto.
  eexists; split; [reflexivity|].
  destruct tm; split; reflexivity.
Qed.

End ScopedProperties.

(** * Runs *)

Lemma tick_clock_monotone : monotone_clock tick_clock.
Proof.
  intros i j Hij. unfold tick_clock. lia.
Qed.

(** C3. The moving-average window starts out holding [window_size] zeros,
    so with [window_size = 3] and trigger level 100 the very first call,
    with 1000, already averages the full window, [(0 + 0 + 1000) / 3 = 333],
    and invokes the callback with [(id, 100, 333)]. *)
Theorem average_detector_fires_on_first_call :
  Average._samples average_3_100 = [0; 0; 0] /\
  feed [1000] average_3_100 [] =
  (Ret tt, Average.with_samples average_3_100 [0; 0; 1000],
   [(7%nat, 100, 333)]).
Proof.
  split; reflexivity.
Qed.

(** The run that the description of the detector gives as its example does
    come out as described: 50, 60, 200 invoke the callback once, with 103,
    and a further 10 does not invoke it. *)
Lemma average_detector_example_run :
  snd (feed [50] average_3_100 []) = [] /\
  snd (feed [50; 60] average_3_100 []) = [] /\
  snd (feed [50; 60; 200] average_3_100 []) = [(7%nat, 100, 103)] /\
  snd (feed [50; 60; 200; 10] average_3_100 []) = [(7%nat, 100, 103)] /\
  Average._samples (snd (fst (feed [50; 60; 200; 10] average_3_100 [])))
  = [60; 200; 10].
Proof.
  repeat split; reflexivity.
Qed.

(** The sum wraps at 2^32: a window of two samples of 2^31 ms averages 0. *)
Lemma average_wraps_around :
  Average.average [2147483648; 2147483648] = Ret 0.
Proof.
  reflexivity.
Qed.

(** [set_item] does not look at what it is given: a null item is pushed
    like any other, which is why callers give back only what they hold. *)
Lemma set_item_of_null_is_pushed :
  get_available_count (pool (snd (set_item None (pool_of 2)))) = 3%N.
Proof.
  reflexivity.
Qed.

(** With an item free, [get_item] returns it in the first pass. *)
Lemma get_item_returns_front {T : Type} (now : nat -> Z) (ticks_per_ms : Z)
    (fuel : nat) (max_wait_ms : option Z)
    (tm : option interactive_pool_time) (w : world T) (j : item T)
    (rest : list (item T)) :
  _freeItems (pool w) = j :: rest ->
  fst (fst (get_item now ticks_per_ms (S fuel) max_wait_ms tm w)) = Ret j.
Proof.
  intros Hfree. unfold get_item; simpl.
  destruct tm; simpl; rewrite Hfree; reflexivity.
Qed.

(** With nothing free, [get_item] throws as soon as a reading taken in the
    loop is [max_wait_ms] or more after [t0]: the loop ends. *)
Lemma get_item_loop_times_out {T : Type} (now : nat -> Z)
    (ticks_per_ms max_wait_ms t0 : Z) (tm : option interactive_pool_time)
    (n : nat) (w : world T) :
  _freeItems (pool w) = [] ->
  max_wait_ms * ticks_per_ms <= now (reads w + n)%nat - t0 ->
  exists fuel,
    (fuel <= S n)%nat /\
    fst (fst (get_item_loop now ticks_per_ms fuel max_wait_ms t0 tm w))
    = Throw all_in_use.
Proof.
  revert w; induction n as [|n IH]; intros w Hfree Hlate.
  - exists 1%nat; split; [lia|]. simpl. rewrite Hfree.
    rewrite Nat.add_0_r in Hlate.
    destruct (Z.ltb_spec (now (reads w) - t0) (max_wait_ms * ticks_per_ms));
      [lia|reflexivity].
  - destruct (Z.ltb_spec (now (reads w) - t0) (max_wait_ms * ticks_per_ms))
      as [Hearly|Hnow].
    + destruct (IH (emit {| pool := pool w; reads := S (reads w);
                            trace := trace w ++ [ev_lock_check true] |}
                         [ev_sleep 1])) as (fuel & Hfuel & Hthrow); auto.
      { simpl. rewrite Nat.add_succ_r in Hlate. exact Hlate. }
      exists (S fuel); split; [lia|]. simpl. rewrite Hfree.
      destruct (Z.ltb_spec (now (reads w) - t0) (max_wait_ms * ticks_per_ms));
        [exact Hthrow|lia].
    + exists 1%nat; split; [lia|]. simpl. rewrite Hfree.
      destruct (Z.ltb_spec (now (reads w) - t0) (max_wait_ms * ticks_per_ms));
        [lia|reflexivity].
Qed.

(** Under a clock that stands still, [get_item] with the default wait on an
    empty pool is still in its loop after any number of passes. *)
Lemma get_item_default_keeps_waiting (fuel : nat) :
  fst (fst (get_item stuck_clock ticks_in_ms fuel None None (pool_of 0)))
  = Spinning.
Proof.
  unfold get_item; simpl.
  generalize (@nil event) as tr. generalize 1%nat as k.
  induction fuel as [|fuel IH]; intros k tr; simpl; auto.
  apply IH.
Qed.

(** ** The theorems at concrete inputs *)

(** An empty pool, no sample: one pass, then the exception. *)
Lemma get_item_zero_wait_on_empty_run :
  monotone_clock tick_clock /\
  _freeItems (pool (pool_of 0)) = [] /\
  fst (fst (get_item tick_clock ticks_in_ms 1 (Some 0) None (pool_of 0)))
  = Throw (runtime_error "interactive_pool: All items are in use") /\
  trace (snd (get_item tick_clock ticks_in_ms 1 (Some 0) None (pool_of 0)))
  = [ev_lock_check true; ev_sleep 1].
Proof.
  split; [exact tick_clock_monotone|].
  split; [reflexivity|].
  pose proof (get_item_zero_wait_on_empty tick_clock ticks_in_ms 0 None
                (pool_of 0) tick_clock_monotone eq_refl) as Hrun.
  simpl in Hrun.
  split; [exact (proj1 Hrun)|exact (proj1 (proj2 (proj2 Hrun)))].
Defined.

(** A worker's block on a pool of two, with a sample and the average
    detector, whose member call throws: both items are free afterwards. *)
Lemma scoped_block_round_trip_run :
  let w := pool_of 2 in
  let tm := Some (mk_time 0 0 0) in
  let c := {| _p := Some 0%nat; _pool := address; _detector := address |} in
  let fr :=
    {| the_time := Some (mk_time 1000000 2000000 1);
       the_detector := Some (Average.with_samples average_3_100 [0; 0; 1]);
       the_user := ([] : call_log);
       the_world :=
         {| pool := mk_pool 2 [Some 0%nat];
            reads := 3;
            trace := [ev_stamp_init 1000000; ev_lock_check false;
                      ev_pop_front; ev_stamp_finish 2000000;
                      ev_set_elapsed_time 1] |} |} in
  let res := scoped_block tick_clock ticks_in_ms 1 address None tm
                          (Some average_3_100) failing_Write [] w in
  Forall (fun i => is_null i = false) (_freeItems (pool w)) /\
  new_scoped_connection tick_clock ticks_in_ms 1 address None tm
                        (Some average_3_100) [] w = (Ret c, fr) /\
  (fst res = Ret tt \/ (exists e, fst res = Throw e)) /\
  get_available_count (pool (the_world (snd res)))
  = get_available_count (pool w).
Proof.
  intros w tm c fr res.
  assert (Hnull : Forall (fun i : item nat => is_null i = false)
                         (_freeItems (pool w))).
  { repeat constructor. }
  assert (Hctor : new_scoped_connection tick_clock ticks_in_ms 1 address None
                    tm (Some average_3_100) [] w = (Ret c, fr)).
  { reflexivity. }
  assert (Hleft : fst res = Ret tt \/ (exists e, fst res = Throw e)).
  { right. exists (runtime_error "Write failed"). reflexivity. }
  split; [exact Hnull|]. split; [exact Hctor|]. split; [exact Hleft|].
  exact (proj1 (proj1 (scoped_block_round_trip tick_clock ticks_in_ms 1
                         address None tm (Some average_3_100) failing_Write
                         [] w c fr Hnull Hctor) Hleft)).
Defined.

(** A scoped connection on an empty pool, [max_wait_ms] left out. *)
Lemma scoped_default_wait_fails_at_once_run :
  monotone_clock tick_clock /\
  _freeItems (pool (pool_of 0)) = [] /\
  fst (new_scoped_connection tick_clock ticks_in_ms 1 address None None
         (Some average_3_100) [] (pool_of 0))
  = Throw (runtime_error "interactive_pool: All items are in use").
Proof.
  split; [exact tick_clock_monotone|].
  split; [reflexivity|].
  exact (proj1 (proj2 (proj2
           (scoped_default_wait_fails_at_once tick_clock ticks_in_ms 0 None
              (Some average_3_100) [] (pool_of 0)
              tick_clock_monotone eq_refl)))).
Defined.

(** The window of three over four calls. *)
Lemma average_window_never_underflows_run :
  (1 <= 3)%N /\
  fst (fst (feed [50; 60; 200; 10] average_3_100 []))
  <> Undefined pop_front_on_empty /\
  List.length
    (Average._samples (snd (fst (feed [50; 60; 200; 10] average_3_100 []))))
  = 3%nat.
Proof.
  assert (Hpos : (1 <= 3)%N) by (vm_compute; discriminate).
  split; [exact Hpos|].
  pose proof (proj1 (average_window_never_underflows
                       7%nat 3 100 record_call [50; 60; 200; 10]
                       ([] : call_log) Hpos)) as Hrun.
  split; [exact (proj1 Hrun)|exact (proj1 (proj2 (proj2 Hrun)))].
Defined.

(** ** Further runs *)

(** A worker's block whose member call returns: the item taken from the
    front is at the back afterwards, one call older. *)
Lemma scoped_block_normal_exit :
  let res := @scoped_block nat call_log
               (Average.interactive_average_detector nat call_log) _
               tick_clock ticks_in_ms 1 address None None None Write []
               (pool_of 2) in
  fst res = Ret tt /\
  _freeItems (pool (the_world (snd res))) = [Some 0%nat; Some 1%nat] /\
  trace (the_world (snd res))
  = [ev_lock_check false; ev_pop_front; ev_push_back].
Proof.
  repeat split; reflexivity.
Qed.

(** [get_item] with a sample: stamped on success, [finish] and
    [elapsed_time] left alone when the wait of 3 ms runs out. *)
Lemma get_item_sample_runs :
  get_item tick_clock ticks_in_ms 5 (Some 3) (Some (mk_time 11 22 33))
           (pool_of 1)
  = (Ret (Some 0%nat), Some (mk_time 1000000 2000000 1),
     {| pool := mk_pool 1 [];
        reads := 3;
        trace := [ev_stamp_init 1000000; ev_lock_check false; ev_pop_front;
                  ev_stamp_finish 2000000] |}) /\
  get_item tick_clock ticks_in_ms 5 (Some 3) (Some (mk_time 11 22 33))
           (pool_of 0)
  = (Throw all_in_use, Some (mk_time 1000000 22 33),
     {| pool := mk_pool 0 [];
        reads := 4;
        trace := [ev_stamp_init 1000000;
                  ev_lock_check true; ev_sleep 1;
                  ev_lock_check true; ev_sleep 1] |}).
Proof.
  split; reflexivity.
Qed.

(** Two callers' worth of operations on a pool of two: the third
    [get_item] finds nothing and gives up, a handle goes back, and the next
    [get_item] gets it. *)
Lemma perform_all_run :
  let c := perform_all tick_clock ticks_in_ms 4
             (mk_callers (pool_of 2) [])
             [op_get_item (Some 1000) None; op_get_item (Some 1000) None;
              op_get_item (Some 2) None; op_set_item 0;
              op_get_item None None] in
  get_available_count (pool (shared c)) = 0%N /\
  checked_out c = [0%nat; 0%nat] /\
  count_events is_push_back (trace (shared c)) = 1%nat.
Proof.
  repeat split; reflexivity.
Qed.

(** * More about the pool *)

Section MorePoolProperties.

Context {T : Type}.
Variable now : nat -> Z.
Variable ticks_per_ms : Z.

(** The whole result of [get_item] when an item is free. *)
Lemma get_item_on_free (fuel : nat) (max_wait_ms : option Z)
    (tm : option interactive_pool_time) (w : world T) (j : item T)
    (rest : list (item T)) :
  _freeItems (pool w) = j :: rest ->
  get_item now ticks_per_ms (S fuel) max_wait_ms tm w =
  match tm with
  | Some _ =>
    (Ret j,
     Some {| init := now (S (reads w));
             finish := now (S (S (reads w)));
             elapsed_time := Z.quot (now (S (S (reads w))) - now (S (reads w)))
                                    ticks_per_ms |},
     {| pool := mk_pool (_initialSize (pool w)) rest;
        reads := 3 + reads w;
        trace := trace w ++ [ev_stamp_init (now (S (reads w)));
                             ev_lock_check false; ev_pop_front;
                             ev_stamp_finish (now (S (S (reads w))))] |})
  | None =>
    (Ret j, None,
     {| pool := mk_pool (_initialSize (pool w)) rest;
        reads := 1 + reads w;
        trace := trace w ++ [ev_lock_check false; ev_pop_front] |})
  end.
Proof.
  intros Hfree. unfold get_item; simpl.
  destruct tm as [s|]; simpl; rewrite Hfree; simpl; [|reflexivity].
  unfold emit; simpl. rewrite <- !app_assoc. reflexivity.
Qed.

(** X1. With an item free, [get_item] returns the front item on its first
    look at the free list, for any [max_wait_ms] and any budget of at least
    one pass: it does not sleep, and the free list loses that item and no
    other. *)
Theorem get_item_takes_front (fuel : nat) (max_wait_ms : option Z)
    (tm : option interactive_pool_time) (w : world T) (j : item T)
    (rest : list (item T)) :
  _freeItems (pool w) = j :: rest ->
  let res := get_item now ticks_per_ms (S fuel) max_wait_ms tm w in
  fst (fst res) = Ret j /\
  _freeItems (pool (snd res)) = rest /\
  _initialSize (pool (snd res)) = _initialSize (pool w) /\
  (get_available_count (pool (snd res)) + 1
   = get_available_count (pool w))%N /\
  exists evs,
    trace (snd res) = trace w ++ evs /\
    count_events is_lock_check evs = 1%nat /\
    count_events is_sleep evs = 0%nat.
Proof.
  intros Hfree res; subst res.
  rewrite (get_item_on_free fuel max_wait_ms tm w j rest Hfree).
  unfold get_available_count; rewrite Hfree.
  destruct tm; simpl; repeat split; try lia;
    eexists; repeat split; reflexivity.
Qed.

Lemma get_item_loop_throws_on_empty (fuel : nat) (max_wait_ms t0 : Z)
    (tm : option interactive_pool_time) (w : world T) (e : exn) :
  fst (fst (get_item_loop now ticks_per_ms fuel max_wait_ms t0 tm w))
  = Throw e ->
  _freeItems (pool w) = [].
Proof.
  destruct fuel as [|fuel]; simpl; [discriminate|].
  destruct (_freeItems (pool w)); auto.
  destruct tm; simpl; discriminate.
Qed.

Lemma get_item_loop_never_undefined (fuel : nat) (max_wait_ms t0 : Z)
    (tm : option interactive_pool_time) (w : world T) (f : fault) :
  fst (fst (get_item_loop now ticks_per_ms fuel max_wait_ms t0 tm w))
  <> Undefined f.
Proof.
  destruct (get_item_loop_cases now ticks_per_ms fuel max_wait_ms t0 tm w)
    as [(j & rest & _ & Hr & _)|[[Hr|Hr] _]]; rewrite Hr; discriminate.
Qed.

(** X2. All that [get_item] can do: return the front item, which leaves the
    free list; throw, and then there was nothing free, the exception is
    "interactive_pool: All items are in use" and the pool is as it was; or
    be still waiting, the pool as it was. It has no undefined behaviour. *)
Theorem get_item_outcomes (fuel : nat) (max_wait_ms : option Z)
    (tm : option interactive_pool_time) (w : world T) :
  let res := get_item now ticks_per_ms fuel max_wait_ms tm w in
  (forall j, fst (fst res) = Ret j ->
             exists rest, _freeItems (pool w) = j :: rest /\
                          _freeItems (pool (snd res)) = rest) /\
  (forall e, fst (fst res) = Throw e ->
             e = runtime_error "interactive_pool: All items are in use" /\
             _freeItems (pool w) = [] /\
             pool (snd res) = pool w) /\
  (fst (fst res) = Spinning -> pool (snd res) = pool w) /\
  (forall f, fst (fst res) <> Undefined f).
Proof.
  intros res.
  pose proof (get_item_cases now ticks_per_ms fuel max_wait_ms tm w) as Hc.
  fold res in Hc; simpl in Hc.
  assert (Hempty : forall e, fst (fst res) = Throw e ->
                             _freeItems (pool w) = []).
  { intros e. subst res. unfold get_item; simpl.
    destruct tm; intros He;
      apply get_item_loop_throws_on_empty in He; exact He. }
  assert (Hundef : forall f, fst (fst res) <> Undefined f).
  { intros f. subst res. unfold get_item; simpl.
    destruct tm; apply get_item_loop_never_undefined. }
  repeat split; auto.
  - intros j Hj.
    destruct Hc as [(j0 & rest & Hfree & Hr & Hpool)|[[Hr|Hr] _]];
      rewrite Hr in Hj; try discriminate.
    injection Hj as <-. exists rest. rewrite Hpool. auto.
  - destruct Hc as [(j0 & rest & Hfree & Hr & Hpool)|[[Hr|Hr] _]];
      rewrite Hr in H; try discriminate.
    now injection H as <-.
  - eapply Hempty; eauto.
  - destruct Hc as [(j0 & rest & Hfree & Hr & Hpool)|[_ Hpool]]; auto.
    rewrite Hr in H; discriminate.
  - intros Hs.
    destruct Hc as [(j0 & rest & Hfree & Hr & Hpool)|[_ Hpool]]; auto.
    rewrite Hr in Hs; discriminate.
Qed.

Lemma get_item_loop_throws_late (fuel : nat) (max_wait_ms t0 : Z)
    (tm : option interactive_pool_time) (w : world T) (e : exn) :
  fst (fst (get_item_loop now ticks_per_ms fuel max_wait_ms t0 tm w))
  = Throw e ->
  max_wait_ms * ticks_per_ms
  <= now (pred (reads (snd (get_item_loop now ticks_per_ms fuel max_wait_ms
                                          t0 tm w)))) - t0.
Proof.
  revert w; induction fuel as [|fuel IH]; intros w; simpl; [discriminate|].
  destruct (_freeItems (pool w)).
  - destruct (Z.ltb_spec (now (reads w) - t0) (max_wait_ms * ticks_per_ms)).
    + apply IH.
    + simpl. intros _. lia.
  - destruct tm; simpl; discriminate.
Qed.

(** X4. [get_item] does not give up early: when it throws, the last clock
    reading it took was at least [max_wait_ms] after the reading [t0] taken
    on entry. *)
Theorem get_item_throws_only_when_late (fuel : nat) (max_wait_ms : Z)
    (tm : option interactive_pool_time) (w : world T) (e : exn) :
  let res := get_item now ticks_per_ms fuel (Some max_wait_ms) tm w in
  fst (fst res) = Throw e ->
  max_wait_ms * ticks_per_ms
  <= now (pred (reads (snd res))) - now (reads w).
Proof.
  unfold get_item; simpl.
  destruct tm; apply get_item_loop_throws_late.
Qed.

(** X5. [get_item] does give up: with nothing free, if the reading taken in
    pass [n + 1] of the loop is [max_wait_ms] or more after [t0], the call
    throws "interactive_pool: All items are in use" within [n + 1] passes. *)
Theorem get_item_times_out (max_wait_ms : Z)
    (tm : option interactive_pool_time) (n : nat) (w : world T) :
  _freeItems (pool w) = [] ->
  max_wait_ms * ticks_per_ms
  <= now (reads w + match tm with Some _ => 2 | None => 1 end + n)%nat
     - now (reads w) ->
  exists fuel,
    (fuel <= S n)%nat /\
    fst (fst (get_item now ticks_per_ms fuel (Some max_wait_ms) tm w))
    = Throw (runtime_error "interactive_pool: All items are in use").
Proof.
  intros Hfree Hlate. unfold get_item; simpl.
  destruct tm; apply get_item_loop_times_out; simpl reads; simpl pool; auto.
  - replace (S (S (reads w)) + n)%nat with (reads w + 2 + n)%nat by lia.
    exact Hlate.
  - replace (S (reads w) + n)%nat with (reads w + 1 + n)%nat by lia.
    exact Hlate.
Qed.

(** X6. The sample of a successful [get_item], under a clock that does not
    run backwards and has a positive number of ticks in a millisecond:
    [init] is not after [finish], and [elapsed_time] is the number of whole
    milliseconds between them, never negative. *)
Theorem get_item_elapsed_whole_ms (fuel : nat) (max_wait_ms : option Z)
    (tm s : interactive_pool_time) (w w' : world T) (j : item T) :
  monotone_clock now ->
  0 < ticks_per_ms ->
  get_item now ticks_per_ms fuel max_wait_ms (Some tm) w
  = (Ret j, Some s, w') ->
  init s <= finish s /\
  0 <= elapsed_time s /\
  elapsed_time s * ticks_per_ms <= finish s - init s
  < (elapsed_time s + 1) * ticks_per_ms.
Proof.
  intros Hmono Hticks Hget.
  pose proof (get_item_cases now ticks_per_ms fuel max_wait_ms (Some tm) w)
    as Hc.
  rewrite Hget in Hc; simpl in Hc.
  destruct Hc as [(j0 & rest & Hfree & _ & _)|[[Habs|Habs] _]];
    try discriminate Habs.
  destruct fuel as [|fuel]; [discriminate Hget|].
  rewrite (get_item_on_free fuel max_wait_ms (Some tm) w j0 rest Hfree)
    in Hget.
  injection Hget as _ <- _; simpl.
  assert (Hle : now (S (reads w)) <= now (S (S (reads w))))
    by (apply Hmono; lia).
  set (d := now (S (S (reads w))) - now (S (reads w))) in *.
  assert (Hd : 0 <= d) by (subst d; lia).
  rewrite Z.quot_div_nonneg by lia.
  pose proof (Z.mul_div_le d ticks_per_ms Hticks).
  pose proof (Z.mul_succ_div_gt d ticks_per_ms Hticks).
  pose proof (Z.div_pos d ticks_per_ms Hd Hticks).
  repeat split; lia.
Qed.

Lemma drain_takes_in_order (fuel n : nat) (w : world T) :
  (n <= List.length (_freeItems (pool w)))%nat ->
  fst (drain now ticks_per_ms (S fuel) n w)
  = map Ret (firstn n (_freeItems (pool w))) /\
  _freeItems (pool (snd (drain now ticks_per_ms (S fuel) n w)))
  = skipn n (_freeItems (pool w)).
Proof.
  revert w; induction n as [|n IH]; intros w Hn; [split; reflexivity|].
  destruct (_freeItems (pool w)) as [|j rest] eqn:Hfree;
    [simpl in Hn; lia|].
  cbn [drain].
  rewrite (get_item_on_free fuel (Some 0) None w j rest Hfree).
  match goal with
  | |- context [drain _ _ _ n ?w1] =>
      destruct (IH w1) as [Hitems Hleft]; [simpl in *; lia|];
      destruct (drain now ticks_per_ms (S fuel) n w1) as [rs w2]
  end.
  simpl in *. rewrite Hitems, Hleft. split; reflexivity.
Qed.

(** X7. The free list is first in, first out: after [set_item r], as many
    [get_item] calls as there are free items hand out the items that were
    free before, in their order, and then [r], and leave nothing free. *)
Theorem set_item_then_drain_is_fifo (fuel : nat) (r : item T) (w : world T) :
  let w1 := snd (set_item r w) in
  let res := drain now ticks_per_ms (S fuel)
                   (List.length (_freeItems (pool w1))) w1 in
  fst res = map Ret (_freeItems (pool w) ++ [r]) /\
  _freeItems (pool (snd res)) = [].
Proof.
  intros w1 res.
  destruct (drain_takes_in_order fuel (List.length (_freeItems (pool w1))) w1)
    as [Hitems Hleft]; [lia|].
  fold res in Hitems, Hleft.
  rewrite Hitems, Hleft, firstn_all, skipn_all. split; reflexivity.
Qed.

(** X8. After any sequence of [get_item] and [set_item] operations on a
    pool made by the constructor, [check_before_destruct] returns exactly
    when no handle is checked out. *)
Theorem check_after_operations (make_T : T) (size : N) (fuel : nat)
    (os : list operation) :
  let c := perform_all now ticks_per_ms fuel
             (mk_callers (fresh_world (new_interactive_pool make_T size)) [])
             os in
  fst (check_before_destruct (pool (shared c))) = Ret tt
  <-> checked_out c = [].
Proof.
  intros c.
  assert (Hc : accounted size c).
  { apply perform_all_accounted.
    unfold accounted, get_available_count; simpl.
    repeat split.
    - apply new_interactive_pool_no_null.
    - rewrite length_map, repeat_length. lia. }
  destruct Hc as (_ & Hsize & Hsum).
  unfold check_before_destruct, get_available_count in *.
  rewrite Hsize.
  destruct (N.eqb_spec (N.of_nat (List.length (_freeItems (pool (shared c)))))
                       size) as [Heq|Hne]; simpl.
  - split; auto. intros _.
    destruct (checked_out c); auto. simpl List.length in Hsum. lia.
  - split; [discriminate|].
    intros Hnil. rewrite Hnil in Hsum. simpl in Hsum. lia.
Qed.

End MorePoolProperties.

(** * More about the detectors *)

Section MoreDetectorProperties.

Context {Id : Type}.

(** X9. A whole run of the peak detector: the callback is applied, in
    order, to exactly the values above the trigger level; with the callback
    that writes its invocations down, the log grows by one [(id, t, v)] for
    each such [v] and by nothing else. *)
Theorem peak_run_log {U : Type} (id : Id) (t : Z) (l : list Z) :
  (forall (fcn : Id -> Z -> Z -> U -> U) (u : U),
      feed l (Peak.new_detector id t fcn) u
      = (Ret tt, Peak.new_detector id t fcn,
         fold_left (fun u' v => fcn id t v u')
                   (filter (fun v => v >? t) l) u)) /\
  (forall log : list (Id * Z * Z),
      snd (feed l (Peak.new_detector id t record_call) log)
      = log ++ map (fun v => (id, t, v)) (filter (fun v => v >? t) l)).
Proof.
  assert (Hgen : forall (V : Type) (fcn : Id -> Z -> Z -> V -> V) (u : V),
             feed l (Peak.new_detector id t fcn) u
             = (Ret tt, Peak.new_detector id t fcn,
                fold_left (fun u' v => fcn id t v u')
                          (filter (fun v => v >? t) l) u)).
  { intros V fcn. induction l as [|v l IH]; intros u; simpl; auto.
    unfold Peak.set_elapsed_time; simpl.
    destruct (v >? t); simpl; apply IH. }
  split; [apply Hgen|].
  intros log. rewrite Hgen; simpl. clear Hgen.
  revert log; induction l as [|v l IH]; intros log; simpl.
  - now rewrite app_nil_r.
  - destruct (v >? t); simpl; auto.
    rewrite IH. unfold record_call. now rewrite <- app_assoc.
Qed.

Lemma total_nonneg (s : list Z) :
  Forall (fun x => 0 <= x) s -> 0 <= total s.
Proof.
  induction 1; simpl; lia.
Qed.

Lemma average_of_fitting_sum (s : list Z) :
  s <> [] ->
  Forall (fun x => 0 <= x) s ->
  total s < uint32_modulus ->
  Z.of_nat (List.length s) < uint32_modulus ->
  Average.average s = Ret (total s / Z.of_nat (List.length s)).
Proof.
  intros Hne Hpos Hsum Hlen.
  pose proof (total_nonneg s Hpos) as Htot.
  unfold Average.average.
  destruct s as [|x s']; [contradiction Hne; reflexivity|].
  rewrite accumulate_total.
  unfold to_uint32. rewrite !Z.mod_small by (simpl List.length in *; lia).
  destruct (Z.eqb_spec (Z.of_nat (List.length (x :: s'))) 0) as [Hz|Hnz];
    [simpl List.length in Hz; lia|reflexivity].
Qed.

Lemma total_between (lo hi : Z) (s : list Z) :
  Forall (fun x => lo <= x <= hi) s ->
  lo * Z.of_nat (List.length s) <= total s <= hi * Z.of_nat (List.length s).
Proof.
  induction 1 as [|x s Hx Hs IH]; [simpl; lia|].
  cbn [total fold_right List.length]. fold (total s).
  rewrite Nat2Z.inj_succ. lia.
Qed.

(** X10. When no sample is negative and the sum of a non-empty window fits
    32 bits, [average] is the sum divided by the number of samples, rounded
    down; it then lies between the smallest and the largest sample. *)
Theorem average_exact_when_sum_fits (s : list Z) (lo hi : Z) :
  s <> [] ->
  0 <= lo ->
  Forall (fun x => lo <= x <= hi) s ->
  total s < uint32_modulus ->
  Z.of_nat (List.length s) < uint32_modulus ->
  Average.average s = Ret (total s / Z.of_nat (List.length s)) /\
  lo <= total s / Z.of_nat (List.length s) <= hi.
Proof.
  intros Hne Hlo Hrange Hsum Hlen.
  assert (Hpos : Forall (fun x => 0 <= x) s).
  { eapply Forall_impl; [|exact Hrange]. simpl; intros; lia. }
  split; [apply average_of_fitting_sum; auto|].
  pose proof (total_between lo hi s Hrange) as Hb.
  assert (Hn : 0 < Z.of_nat (List.length s)).
  { destruct s; [contradiction Hne; reflexivity|]. simpl List.length. lia. }
  split.
  - apply Z.div_le_lower_bound; lia.
  - apply Z.div_le_upper_bound; lia.
Qed.

Lemma skipn_repeat_app {A : Type} (a : A) (w n : nat) (l : list A) :
  skipn n (repeat a w ++ l)
  = if (n <? w)%nat then repeat a (w - n) ++ l else skipn (n - w) l.
Proof.
  revert n; induction w as [|w IH]; intros n; simpl.
  - now rewrite Nat.sub_0_r.
  - destruct n as [|n]; simpl; auto.
Qed.

(** X11. The window after a run of calls on a detector made by the
    constructor (window size from 1 to 2^32 - 1): while fewer calls than the
    window size have been made it is the zeros the constructor put there,
    less one per call, followed by the values passed in; from then on it is
    the last [samples] values passed in. *)
Theorem average_window_after_run {U : Type} (id : Id) (w : N) (t : Z)
    (fcn : Id -> Z -> Z -> U -> U) (inputs : list Z) (u : U) :
  (1 <= w)%N ->
  Z.of_N w < uint32_modulus ->
  Average._samples
    (snd (fst (feed inputs (Average.new_detector id w t fcn) u)))
  = if (List.length inputs <? N.to_nat w)%nat
    then repeat 0 (N.to_nat w - List.length inputs) ++ inputs
    else skipn (List.length inputs - N.to_nat w) inputs.
Proof.
  intros Hpos Hsmall.
  rewrite average_window_contents; simpl; auto.
  - apply skipn_repeat_app.
  - apply repeat_length.
Qed.

Lemma average_feed_keeps_fields {U : Type} (inputs : list Z)
    (d : Average.interactive_average_detector Id U) (u : U) :
  (1 <= Average._samples_count d)%N ->
  List.length (Average._samples d) = N.to_nat (Average._samples_count d) ->
  snd (fst (feed inputs d u))
  = Average.with_samples d (Average._samples (snd (fst (feed inputs d u)))).
Proof.
  revert d u; induction inputs as [|i l IH]; intros d u Hpos Hlen.
  - simpl. destruct d; reflexivity.
  - destruct (average_step_on_full i d u Hpos Hlen) as [Hlen2 Hstep].
    simpl in Hstep. simpl feed. rewrite Hstep; clear Hstep.
    destruct (to_uint32 (Z.of_N (Average._samples_count d)) =? 0);
      [reflexivity|].
    rewrite IH; auto.
Qed.

Lemma skipn_tl_snoc {A : Type} (n : nat) (l : list A) (x i : A) :
  (n <= List.length l)%nat ->
  tl (skipn n (x :: l)) ++ [i] = skipn n (l ++ [i]).
Proof.
  revert l x; induction n as [|n IH]; intros l x Hn; [reflexivity|].
  destruct l as [|y l]; [simpl in Hn; lia|].
  simpl in Hn. apply (IH l y). lia.
Qed.

Lemma window_slides {A : Type} (s history : list A) (i : A) :
  (1 <= List.length s)%nat ->
  tl (skipn (List.length history) (s ++ history)) ++ [i]
  = skipn (S (List.length history)) (s ++ history ++ [i]).
Proof.
  intros Hs. destruct s as [|x rest]; [simpl in Hs; lia|].
  simpl app. rewrite skipn_tl_snoc by (rewrite length_app; lia).
  simpl. now rewrite <- app_assoc.
Qed.

(** X12. When the average detector fires: on a detector made by the
    constructor (window size from 1 to 2^32 - 1), after any earlier calls, a
    call with [i] slides the window over [i] and applies the callback, to
    [(id, t, a)], exactly when [a > t], where [a] is the sum of the new
    window modulo 2^32 divided by the window size. *)
Theorem average_fires_iff {U : Type} (id : Id) (w : N) (t : Z)
    (fcn : Id -> Z -> Z -> U -> U) (history : list Z) (i : Z) (u : U) :
  (1 <= w)%N ->
  Z.of_N w < uint32_modulus ->
  let d0 := Average.new_detector id w t fcn in
  let win := skipn (S (List.length history))
                   (repeat 0 (N.to_nat w) ++ history ++ [i]) in
  let a := (total win mod uint32_modulus) / Z.of_N w in
  exists d1 u1,
    feed history d0 u = (Ret tt, d1, u1) /\
    feed (history ++ [i]) d0 u
    = (Ret tt, Average.with_samples d0 win,
       if a >? t then fcn id t a u1 else u1).
Proof.
  intros Hpos Hsmall d0 win a.
  assert (Hlen0 : List.length (Average._samples d0)
                  = N.to_nat (Average._samples_count d0))
    by apply repeat_length.
  destruct (average_feed_on_full history d0 u Hpos Hlen0)
    as (_ & Hcount & Hlen & Hret).
  pose proof (average_feed_keeps_fields history d0 u Hpos Hlen0) as Hfields.
  pose proof (average_window_contents history d0 u Hpos Hsmall Hlen0)
    as Hwin.
  specialize (Hret Hsmall).
  destruct (feed history d0 u) as [[r d1] u1] eqn:Hfeed; simpl in *.
  subst r. exists d1, u1; split; [reflexivity|].
  rewrite feed_app, Hfeed. simpl feed.
  assert (Hpos1 : (1 <= Average._samples_count d1)%N) by (rewrite Hcount; lia).
  assert (Hlen1 : List.length (Average._samples d1)
                  = N.to_nat (Average._samples_count d1))
    by (rewrite Hcount; exact Hlen).
  destruct (average_step_on_full i d1 u1 Hpos1 Hlen1) as [_ Hstep].
  simpl in Hstep. rewrite Hstep; clear Hstep.
  rewrite Hcount.
  assert (Hn : to_uint32 (Z.of_N w) = Z.of_N w)
    by (unfold to_uint32; apply Z.mod_small; lia).
  rewrite Hn.
  destruct (Z.eqb_spec (Z.of_N w) 0); [lia|].
  assert (Hwin' : tl (Average._samples d1) ++ [i] = win).
  { rewrite Hwin. apply window_slides.
    rewrite repeat_length. lia. }
  rewrite Hwin'. rewrite Hfields. simpl.
  unfold to_uint32. fold a.
  destruct (a >? t); reflexivity.
Qed.

Lemma average_feed_quiet {U : Type} (inputs : list Z)
    (d : Average.interactive_average_detector Id U) (u : U) :
  (1 <= Average._samples_count d)%N ->
  Z.of_N (Average._samples_count d) < uint32_modulus ->
  List.length (Average._samples d) = N.to_nat (Average._samples_count d) ->
  Z.of_N (Average._samples_count d) * Average._trigger_level d
  < uint32_modulus ->
  Forall (fun x => 0 <= x <= Average._trigger_level d) (Average._samples d) ->
  Forall (fun x => 0 <= x <= Average._trigger_level d) inputs ->
  fst (fst (feed inputs d u)) = Ret tt /\ snd (feed inputs d u) = u.
Proof.
  revert d u; induction inputs as [|i l IH];
    intros d u Hpos Hsmall Hlen Hfits Hwin Hin; [split; reflexivity|].
  destruct (average_step_on_full i d u Hpos Hlen) as [Hlen2 Hstep].
  simpl in Hstep. simpl feed. rewrite Hstep; clear Hstep.
  assert (Hn : to_uint32 (Z.of_N (Average._samples_count d))
               = Z.of_N (Average._samples_count d))
    by (unfold to_uint32; apply Z.mod_small; lia).
  rewrite Hn.
  destruct (Z.eqb_spec (Z.of_N (Average._samples_count d)) 0); [lia|].
  inversion Hin as [|? ? Hi Hl]; subst.
  assert (Hwin2 : Forall (fun x => 0 <= x <= Average._trigger_level d)
                         (tl (Average._samples d) ++ [i])).
  { apply Forall_app; split; [|constructor; auto].
    destruct (Average._samples d); simpl; auto.
    inversion Hwin; auto. }
  pose proof (total_between _ _ _ Hwin2) as Hb.
  rewrite Hlen2, N_nat_Z in Hb.
  assert (Hquiet : (to_uint32 (total (tl (Average._samples d) ++ [i]))
                    / Z.of_N (Average._samples_count d)
                    >? Average._trigger_level d) = false).
  { unfold to_uint32. rewrite Z.mod_small by lia.
    rewrite Z.gtb_ltb. apply Z.ltb_ge.
    apply Z.div_le_upper_bound; lia. }
  rewrite Hquiet.
  apply IH; simpl; auto.
Qed.

(** X13. No alarm without cause: on an average detector made by the
    constructor, when no value passed in is negative or above the trigger
    level (and window size times trigger level fits 32 bits), every call
    returns and the callback is never applied. *)
Theorem average_quiet_below_trigger {U : Type} (id : Id) (w : N) (t : Z)
    (fcn : Id -> Z -> Z -> U -> U) (inputs : list Z) (u : U) :
  (1 <= w)%N ->
  Z.of_N w < uint32_modulus ->
  0 <= t ->
  Z.of_N w * t < uint32_modulus ->
  Forall (fun x => 0 <= x <= t) inputs ->
  fst (fst (feed inputs (Average.new_detector id w t fcn) u)) = Ret tt /\
  snd (feed inputs (Average.new_detector id w t fcn) u) = u.
Proof.
  intros Hpos Hsmall Ht Hfits Hin.
  apply average_feed_quiet; simpl; auto.
  - apply repeat_length.
  - clear - Ht. induction (N.to_nat w); simpl; constructor; auto. lia.
Qed.

End MoreDetectorProperties.

(** * The workers of the examples *)

Section WorkerProperties.

Context {T U D : Type} `{base_detector U D}.
Variable now : nat -> Z.
Variable ticks_per_ms : Z.
Variable Inv : D -> Prop.

(** One block on a pool that has an item free, with a detector that always
    returns. *)
Lemma scoped_block_pass (fuel : nat) (max_wait_ms : option Z)
    (junk : interactive_pool_time) (detector : option D)
    (member : T -> outcome unit * T) (u : U) (w : world T) (t : T)
    (rest : list (item T)) :
  kept_by_detector Inv ->
  holds_for Inv detector ->
  fst (member t) = Ret tt ->
  _freeItems (pool w) = Some t :: rest ->
  exists fr evs,
    scoped_block now ticks_per_ms (S fuel) address max_wait_ms (Some junk)
                 detector member u w = (Ret tt, fr) /\
    pool (the_world fr)
    = mk_pool (_initialSize (pool w)) (rest ++ [Some (snd (member t))]) /\
    pointer_to (the_detector fr) = pointer_to detector /\
    holds_for Inv (the_detector fr) /\
    trace (the_world fr) = trace w ++ evs /\
    count_events is_push_back evs = 1%nat /\
    count_events is_sleep evs = 0%nat /\
    count_events is_set_elapsed_time evs
    = match detector with Some _ => 1%nat | None => 0%nat end.
Proof.
  intros Hdet Hinv Hmember Hfree.
  unfold scoped_block, new_scoped_connection.
  rewrite (get_item_on_free now ticks_per_ms fuel _ (Some junk) w (Some t)
             rest Hfree).
  destruct detector as [d|]; cbv beta iota zeta.
  - match goal with
    | |- context [set_elapsed_time ?v d u] =>
        destruct (Hdet v d u Hinv) as [Hret Hkept];
        destruct (set_elapsed_time v d u) as [[r d'] u']
    end.
    simpl in Hret, Hkept; subst r.
    unfold arrow; simpl. destruct (member t) as [r t']; simpl in *.
    subst r.
    eexists; eexists; repeat split.
    + exact Hkept.
    + unfold delete_scoped_connection; simpl.
      rewrite <- !app_assoc. reflexivity.
    + reflexivity.
    + reflexivity.
    + reflexivity.
  - unfold arrow; simpl. destruct (member t) as [r t']; simpl in *.
    subst r.
    eexists; eexists; repeat split.
    + unfold delete_scoped_connection; simpl.
      rewrite <- !app_assoc. reflexivity.
    + reflexivity.
    + reflexivity.
    + reflexivity.
Qed.

Lemma scoped_worker_pass (passes fuel : nat) (operations interval : Z)
    (max_wait_ms : option Z) (junk : interactive_pool_time)
    (member : T -> outcome unit * T) (i : Z) (detector : option D) (u : U)
    (w : world T) :
  scoped_worker now ticks_per_ms (S passes) fuel operations interval
                max_wait_ms junk member i detector u w
  = if i <? operations
    then
      match scoped_block now ticks_per_ms fuel address max_wait_ms
                         (Some junk) detector member u w with
      | (Ret _, fr) =>
        scoped_worker now ticks_per_ms passes fuel operations interval
                      max_wait_ms junk member (i + 1) (the_detector fr)
                      (the_user fr) (emit (the_world fr) [ev_sleep interval])
      | (Throw _, fr) =>
        scoped_worker now ticks_per_ms passes fuel operations interval
                      max_wait_ms junk member (i - 1 + 1) (the_detector fr)
                      (the_user fr) (emit (the_world fr) [ev_sleep interval])
      | (Undefined f, fr) => (Undefined f, fr)
      | (Spinning, fr) => (Spinning, fr)
      end
    else (Ret tt, mk_frame None detector u w).
Proof.
  reflexivity.
Qed.

Lemma turn_keeps_items (member : T -> outcome unit * T) (l : list (item T)) :
  l <> [] ->
  Forall (fun it => is_null it = false) l ->
  turn member l <> [] /\
  Forall (fun it => is_null it = false) (turn member l) /\
  List.length (turn member l) = List.length l.
Proof.
  intros Hne Hnull.
  destruct l as [|[t|] rest]; [contradiction Hne; reflexivity| |];
    inversion Hnull as [|? ? Hj Hrest]; subst; [|discriminate Hj].
  simpl. repeat split.
  - destruct rest; discriminate.
  - apply Forall_app; split; auto.
  - rewrite length_app; simpl. lia.
Qed.

(** A worker with scoped connections, alone on a pool that has an item
    free. *)
Lemma scoped_worker_run (passes fuel : nat) (operations interval : Z)
    (max_wait_ms : option Z) (junk : interactive_pool_time)
    (member : T -> outcome unit * T) (i : Z) (detector : option D) (u : U)
    (w : world T) :
  kept_by_detector Inv ->
  holds_for Inv detector ->
  (forall t, fst (member t) = Ret tt) ->
  _freeItems (pool w) <> [] ->
  Forall (fun it => is_null it = false) (_freeItems (pool w)) ->
  let n := Z.to_nat (operations - i) in
  let res := scoped_worker now ticks_per_ms (S n + passes) (S fuel)
               operations interval max_wait_ms junk member i detector u w in
  fst res = Ret tt /\
  _freeItems (pool (the_world (snd res)))
  = Nat.iter n (turn member) (_freeItems (pool w)) /\
  _initialSize (pool (the_world (snd res))) = _initialSize (pool w) /\
  get_available_count (pool (the_world (snd res)))
  = get_available_count (pool w) /\
  exists evs,
    trace (the_world (snd res)) = trace w ++ evs /\
    count_events is_push_back evs = n /\
    count_events is_sleep evs = n /\
    count_events is_set_elapsed_time evs
    = match detector with Some _ => n | None => 0%nat end.
Proof.
  intros Hdet Hinv Hmember Hne Hnull n.
  remember n as k eqn:Hk. subst n.
  revert i detector u w Hinv Hne Hnull Hk.
  induction k as [|k IH]; intros i detector u w Hinv Hne Hnull Hk res;
    subst res.
  - assert (Hdone : (i <? operations) = false) by (apply Z.ltb_ge; lia).
    simpl. rewrite Hdone; simpl.
    repeat split; auto.
    exists []. rewrite app_nil_r. destruct detector; auto.
  - assert (Hgo : (i <? operations) = true) by (apply Z.ltb_lt; lia).
    change (S (S k) + passes)%nat with (S (S k + passes)).
    rewrite scoped_worker_pass, Hgo.
    destruct (_freeItems (pool w)) as [|[t|] rest] eqn:Hfree;
      [contradiction Hne; reflexivity| |];
      inversion Hnull as [|? ? Hj Hrest]; subst; [|discriminate Hj].
    destruct (scoped_block_pass fuel max_wait_ms junk detector member u w
                t rest Hdet Hinv (Hmember t) Hfree)
      as (fr & evs & Hblock & Hpool & Hptr & Hkept & Htr & Hpb & Hsl & Hse).
    rewrite Hblock. cbv beta iota.
    assert (Hpool' : pool (emit (the_world fr) [ev_sleep interval])
                     = mk_pool (_initialSize (pool w))
                               (rest ++ [Some (snd (member t))]))
      by exact Hpool.
    assert (Htr1 : trace (emit (the_world fr) [ev_sleep interval])
                   = trace w ++ evs ++ [ev_sleep interval])
      by (simpl; rewrite Htr, <- app_assoc; reflexivity).
    match goal with
    | |- context [scoped_worker _ _ _ _ _ _ _ _ _ ?i' ?d' ?u' ?w'] =>
        specialize (IH i' d' u' w')
    end.
    rewrite Hpool', Htr1 in IH. cbn [_freeItems _initialSize] in IH.
    destruct IH as (Hr & Hitems & Hsize & Hcount & evs' & Htr' & Hpb' & Hsl'
                    & Hse').
    { exact Hkept. }
    { destruct rest; discriminate. }
    { apply Forall_app; split; auto. }
    { lia. }
    rewrite Nat.iter_succ_r. simpl turn.
    repeat split; auto.
    + rewrite Hcount. unfold get_available_count; simpl.
      rewrite Hfree, length_app; simpl. f_equal. lia.
    + exists (evs ++ [ev_sleep interval] ++ evs').
      rewrite Htr', <- !app_assoc.
      rewrite !count_events_app, Hpb, Hpb', Hsl, Hsl', Hse, Hse'.
      repeat split; auto.
      destruct detector, (the_detector fr); simpl in *;
        try discriminate Hptr; reflexivity.
Qed.

Lemma check_depends_on_counts (p q : interactive_pool T) :
  _initialSize p = _initialSize q ->
  get_available_count p = get_available_count q ->
  fst (check_before_destruct p) = fst (check_before_destruct q).
Proof.
  unfold check_before_destruct, get_available_count.
  intros -> ->. destruct (negb _); reflexivity.
Qed.

(** X14. A worker that uses scoped connections, alone on a pool with at
    least one free item and no null item, with a member function that
    always returns and a detector that returns as long as some property it
    keeps holds of it: every one of its blocks gets an item at
    once, so the loop ends after exactly the operations that were left, the
    only sleeps are the pauses between passes, the detector (when there is
    one) is called once per block, each block pushes its item back, and the
    pool ends with the same items, turned once per block; so
    [check_before_destruct] answers after the worker as it would have
    before. *)
Theorem scoped_worker_completes (passes fuel : nat) (operations interval : Z)
    (max_wait_ms : option Z) (junk : interactive_pool_time)
    (member : T -> outcome unit * T) (i : Z) (detector : option D) (u : U)
    (w : world T) :
  kept_by_detector Inv ->
  holds_for Inv detector ->
  (forall t, fst (member t) = Ret tt) ->
  _freeItems (pool w) <> [] ->
  Forall (fun it => is_null it = false) (_freeItems (pool w)) ->
  let n := Z.to_nat (operations - i) in
  let res := scoped_worker now ticks_per_ms (S n + passes) (S fuel)
               operations interval max_wait_ms junk member i detector u w in
  fst res = Ret tt /\
  _freeItems (pool (the_world (snd res)))
  = Nat.iter n (turn member) (_freeItems (pool w)) /\
  get_available_count (pool (the_world (snd res)))
  = get_available_count (pool w) /\
  fst (check_before_destruct (pool (the_world (snd res))))
  = fst (check_before_destruct (pool w)) /\
  exists evs,
    trace (the_world (snd res)) = trace w ++ evs /\
    count_events is_push_back evs = n /\
    count_events is_sleep evs = n /\
    count_events is_set_elapsed_time evs
    = match detector with Some _ => n | None => 0%nat end.
Proof.
  intros Hdet Hinv Hmember Hne Hnull n res.
  destruct (scoped_worker_run passes fuel operations interval max_wait_ms
              junk member i detector u w Hdet Hinv Hmember Hne Hnull)
    as (Hr & Hitems & Hsize & Hcount & Hevs).
  fold n in Hr, Hitems, Hsize, Hcount, Hevs. fold res in Hr, Hitems, Hsize, Hcount, Hevs.
  repeat split; auto.
  apply check_depends_on_counts; auto.
Qed.

Lemma scoped_block_on_empty (fuel : nat) (max_wait_ms : option Z)
    (tm : option interactive_pool_time) (detector : option D)
    (member : T -> outcome unit * T) (u : U) (w : world T) :
  _freeItems (pool w) = [] ->
  let res := scoped_block now ticks_per_ms fuel address max_wait_ms tm
                          detector member u w in
  (fst res = Throw all_in_use \/ fst res = Spinning) /\
  pool (the_world (snd res)) = pool w /\
  the_detector (snd res) = detector /\
  the_user (snd res) = u.
Proof.
  intros Hfree res; subst res.
  unfold scoped_block, new_scoped_connection.
  pose proof (get_item_cases now ticks_per_ms fuel
                (Some (arg_or scoped_max_wait_ms_default max_wait_ms)) tm w)
    as Hc.
  destruct (get_item now ticks_per_ms fuel
              (Some (arg_or scoped_max_wait_ms_default max_wait_ms)) tm w)
    as [[r tm'] w1]; simpl in Hc.
  destruct Hc as [(j & rest & Habs & _)|[[Hr|Hr] Hpool]];
    [rewrite Hfree in Habs; discriminate Habs| |];
    subst r; simpl; auto.
Qed.

(** X16. On a pool with nothing free a worker with scoped connections, left
    alone, never finishes: each block ends with "interactive_pool: All items
    are in use" (or is still waiting), the exception takes [i] back, and
    the same block is tried again, however many passes are allowed; the
    pool, the detector and what the callbacks act on stay as they were. *)
Theorem scoped_worker_starves (passes fuel : nat) (operations interval : Z)
    (max_wait_ms : option Z) (junk : interactive_pool_time)
    (member : T -> outcome unit * T) (i : Z) (detector : option D) (u : U)
    (w : world T) :
  _freeItems (pool w) = [] ->
  i < operations ->
  let res := scoped_worker now ticks_per_ms passes fuel operations interval
               max_wait_ms junk member i detector u w in
  fst res = Spinning /\
  pool (the_world (snd res)) = pool w /\
  the_detector (snd res) = detector /\
  the_user (snd res) = u.
Proof.
  intros Hfree Hi.
  revert w Hfree; induction passes as [|p IH]; intros w Hfree res; subst res.
  - simpl; auto.
  - rewrite scoped_worker_pass.
    replace (i <? operations) with true by (symmetry; apply Z.ltb_lt; lia).
    destruct (scoped_block_on_empty fuel max_wait_ms (Some junk) detector
                member u w Hfree) as (Hr & Hpool & Hd & Hu).
    destruct (scoped_block now ticks_per_ms fuel address max_wait_ms
                (Some junk) detector member u w) as [r fr]; simpl in *.
    destruct Hr as [Hr|Hr]; subst r; [|auto].
    replace (i - 1 + 1) with i by lia.
    rewrite Hd, Hu.
    specialize (IH (emit (the_world fr) [ev_sleep interval])).
    simpl in IH. rewrite Hpool in IH.
    apply IH. exact Hfree.
Qed.

End WorkerProperties.

Section SimpleWorkerProperties.

Variable now : nat -> Z.
Variable ticks_per_ms : Z.

Lemma worker_pass (passes fuel : nat) (operations interval i : Z)
    (w : world MyConnectors) :
  worker now ticks_per_ms (S passes) fuel operations interval i w
  = if i <? operations
    then
      match get_item now ticks_per_ms fuel (Some 1000) None w with
      | (Ret (Some c), _, w1) =>
        let '(ok, c1) := is_connected c in
        let c2 := if ok then execute "keys *" c1 else c1 in
        let '(_, w2) := set_item (Some c2) w1 in
        worker now ticks_per_ms passes fuel operations interval (i + 1)
               (emit w2 [ev_sleep interval])
      | (Ret None, _, w1) => (Undefined null_dereference, w1)
      | (Throw _, _, w1) =>
        worker now ticks_per_ms passes fuel operations interval (i - 1 + 1)
               (emit w1 [ev_sleep interval])
      | (Undefined f, _, w1) => (Undefined f, w1)
      | (Spinning, _, w1) => (Spinning, w1)
      end
    else (Ret tt, w).
Proof.
  reflexivity.
Qed.

(** [is_connected] connects when needed: it always answers yes and leaves
    the connector connected. *)
Lemma is_connected_connects (c : MyConnectors) :
  is_connected c = (true, mk_connectors (mk_connection true)).
Proof.
  destruct c as [[[|]]]; reflexivity.
Qed.

(** The worker of the first example, alone on a pool that has an item
    free. *)
Lemma worker_run (passes fuel : nat) (operations interval i : Z)
    (w : world MyConnectors) :
  _freeItems (pool w) <> [] ->
  Forall (fun it => is_null it = false) (_freeItems (pool w)) ->
  let n := Z.to_nat (operations - i) in
  let res := worker now ticks_per_ms (S n + passes) (S fuel) operations
                    interval i w in
  fst res = Ret tt /\
  _freeItems (pool (snd res))
  = Nat.iter n (turn (fun _ => (Ret tt, mk_connectors (mk_connection true))))
             (_freeItems (pool w)) /\
  _initialSize (pool (snd res)) = _initialSize (pool w) /\
  get_available_count (pool (snd res)) = get_available_count (pool w) /\
  exists evs,
    trace (snd res) = trace w ++ evs /\
    count_events is_push_back evs = n /\
    count_events is_sleep evs = n.
Proof.
  intros Hne Hnull n.
  remember n as k eqn:Hk. subst n.
  revert i w Hne Hnull Hk.
  induction k as [|k IH]; intros i w Hne Hnull Hk res; subst res.
  - assert (Hdone : (i <? operations) = false) by (apply Z.ltb_ge; lia).
    simpl. rewrite Hdone; simpl.
    repeat split; auto.
    exists []. rewrite app_nil_r. auto.
  - assert (Hgo : (i <? operations) = true) by (apply Z.ltb_lt; lia).
    change (S (S k) + passes)%nat with (S (S k + passes)).
    rewrite worker_pass, Hgo.
    destruct (_freeItems (pool w)) as [|[c|] rest] eqn:Hfree;
      [contradiction Hne; reflexivity| |];
      inversion Hnull as [|? ? Hj Hrest]; subst; [|discriminate Hj].
    rewrite (get_item_on_free now ticks_per_ms fuel (Some 1000) None w
               (Some c) rest Hfree).
    rewrite is_connected_connects. cbn [set_item execute snd].
    cbv beta iota zeta.
    match goal with
    | |- context [worker _ _ _ _ _ _ ?i' ?w'] => specialize (IH i' w')
    end.
    cbn [pool trace reads emit with_pool _freeItems _initialSize execute]
      in IH |- *.
    destruct IH as (Hr & Hitems & Hsize & Hcount & evs' & Htr' & Hpb' & Hsl').
    { destruct rest; discriminate. }
    { apply Forall_app; split; auto. }
    { lia. }
    rewrite Nat.iter_succ_r. simpl turn.
    repeat split; auto.
    + rewrite Hcount. unfold get_available_count; simpl.
      rewrite Hfree, length_app; simpl. f_equal. lia.
    + exists ([ev_lock_check false; ev_pop_front; ev_push_back;
               ev_sleep interval] ++ evs').
      split; [rewrite Htr', <- !app_assoc; reflexivity|].
      rewrite !count_events_app, Hpb', Hsl'.
      split; reflexivity.
Qed.

(** X15. The worker that calls [get_item] and [set_item] itself, alone on a
    pool with at least one free item and no null item: it never meets an
    exception, finishes after exactly the operations that were left, gives
    back every connector it took, connected, never sleeps but between
    passes, and leaves the pool with the count it started with, so
    [check_before_destruct] answers after the worker as it would have
    before. *)
Theorem worker_completes (passes fuel : nat) (operations interval i : Z)
    (w : world MyConnectors) :
  _freeItems (pool w) <> [] ->
  Forall (fun it => is_null it = false) (_freeItems (pool w)) ->
  let n := Z.to_nat (operations - i) in
  let res := worker now ticks_per_ms (S n + passes) (S fuel) operations
                    interval i w in
  fst res = Ret tt /\
  _freeItems (pool (snd res))
  = Nat.iter n (turn (fun _ => (Ret tt, mk_connectors (mk_connection true))))
             (_freeItems (pool w)) /\
  get_available_count (pool (snd res)) = get_available_count (pool w) /\
  fst (check_before_destruct (pool (snd res)))
  = fst (check_before_destruct (pool w)) /\
  exists evs,
    trace (snd res) = trace w ++ evs /\
    count_events is_push_back evs = n /\
    count_events is_sleep evs = n.
Proof.
  intros Hne Hnull n res.
  destruct (worker_run passes fuel operations interval i w Hne Hnull)
    as (Hr & Hitems & Hsize & Hcount & Hevs).
  fold n in Hr, Hitems, Hsize, Hcount, Hevs.
  fold res in Hr, Hitems, Hsize, Hcount, Hevs.
  repeat split; auto.
  unfold check_before_destruct, get_available_count in *.
  rewrite Hsize, Hcount. destruct (negb _); reflexivity.
Qed.

End SimpleWorkerProperties.

(** ** These properties at concrete inputs *)

Lemma get_item_takes_front_run :
  _freeItems (pool (pool_of 2)) = [Some 0%nat; Some 0%nat] /\
  fst (fst (get_item tick_clock ticks_in_ms 1 None None (pool_of 2)))
  = Ret (Some 0%nat).
Proof.
  split; [reflexivity|].
  exact (proj1 (get_item_takes_front tick_clock ticks_in_ms 0 None None
                  (pool_of 2) (Some 0%nat) [Some 0%nat] eq_refl)).
Defined.

Lemma get_item_throws_only_when_late_run :
  fst (fst (get_item tick_clock ticks_in_ms 2 (Some 1) None (pool_of 0)))
  = Throw all_in_use /\
  1 * ticks_in_ms
  <= tick_clock (pred (reads (snd (get_item tick_clock ticks_in_ms 2 (Some 1)
                                            None (pool_of 0)))))
     - tick_clock (reads (pool_of 0)).
Proof.
  split; [reflexivity|].
  exact (get_item_throws_only_when_late tick_clock ticks_in_ms 2 1 None
           (pool_of 0) all_in_use eq_refl).
Defined.

Lemma get_item_times_out_run :
  _freeItems (pool (pool_of 0)) = [] /\
  3 * ticks_in_ms <= tick_clock 3 - tick_clock 0 /\
  exists fuel,
    (fuel <= 3)%nat /\
    fst (fst (get_item tick_clock ticks_in_ms fuel (Some 3) None (pool_of 0)))
    = Throw (runtime_error "interactive_pool: All items are in use").
Proof.
  assert (Hlate : 3 * ticks_in_ms <= tick_clock 3 - tick_clock 0)
    by (vm_compute; discriminate).
  split; [reflexivity|]. split; [exact Hlate|].
  exact (get_item_times_out tick_clock ticks_in_ms 3 None 2 (pool_of 0)
           eq_refl Hlate).
Defined.

Lemma get_item_elapsed_whole_ms_run :
  let s := mk_time 1000000 2000000 1 in
  let w' := {| pool := mk_pool 1 [];
               reads := 3;
               trace := [ev_stamp_init 1000000; ev_lock_check false;
                         ev_pop_front; ev_stamp_finish 2000000] |} in
  monotone_clock tick_clock /\
  0 < ticks_in_ms /\
  get_item tick_clock ticks_in_ms 1 None (Some (mk_time 0 0 0)) (pool_of 1)
  = (Ret (Some 0%nat), Some s, w') /\
  init s <= finish s.
Proof.
  intros s w'.
  assert (Hticks : 0 < ticks_in_ms) by reflexivity.
  split; [exact tick_clock_monotone|]. split; [exact Hticks|].
  split; [reflexivity|].
  exact (proj1 (get_item_elapsed_whole_ms tick_clock ticks_in_ms 1 None
                  (mk_time 0 0 0) s (pool_of 1) w' (Some 0%nat)
                  tick_clock_monotone Hticks eq_refl)).
Defined.

Lemma average_exact_when_sum_fits_run :
  [50; 60; 200] <> [] /\
  Forall (fun x => 50 <= x <= 200) [50; 60; 200] /\
  Average.average [50; 60; 200] = Ret (total [50; 60; 200] / 3).
Proof.
  assert (Hne : [50; 60; 200] <> ([] : list Z)) by discriminate.
  assert (Hrange : Forall (fun x => 50 <= x <= 200) [50; 60; 200])
    by (repeat constructor; lia).
  split; [exact Hne|]. split; [exact Hrange|].
  refine (proj1 (average_exact_when_sum_fits [50; 60; 200] 50 200
                   Hne _ Hrange _ _)).
  - lia.
  - reflexivity.
  - reflexivity.
Defined.

Lemma average_window_after_run_run :
  (1 <= 3)%N /\
  Average._samples (snd (fst (feed [50; 60; 200; 10] average_3_100 [])))
  = [60; 200; 10].
Proof.
  assert (Hpos : (1 <= 3)%N) by (vm_compute; discriminate).
  split; [exact Hpos|].
  exact (average_window_after_run 7%nat 3 100 record_call [50; 60; 200; 10]
           ([] : call_log) Hpos eq_refl).
Defined.

Lemma average_fires_iff_run :
  (1 <= 3)%N /\
  exists d1 u1,
    feed [50; 60] average_3_100 [] = (Ret tt, d1, u1) /\
    feed ([50; 60] ++ [200]) average_3_100 []
    = (Ret tt, Average.with_samples average_3_100 [50; 60; 200],
       record_call 7%nat 100 103 u1).
Proof.
  assert (Hpos : (1 <= 3)%N) by (vm_compute; discriminate).
  split; [exact Hpos|].
  exact (average_fires_iff 7%nat 3 100 record_call [50; 60] 200
           ([] : call_log) Hpos eq_refl).
Defined.

Lemma average_quiet_below_trigger_run :
  Forall (fun x => 0 <= x <= 100) [50; 60; 70; 100] /\
  snd (feed [50; 60; 70; 100] average_3_100 []) = [].
Proof.
  assert (Hin : Forall (fun x => 0 <= x <= 100) [50; 60; 70; 100])
    by (repeat constructor; lia).
  split; [exact Hin|].
  refine (proj2 (average_quiet_below_trigger 7%nat 3 100 record_call
                   [50; 60; 70; 100] ([] : call_log) _ eq_refl _ eq_refl
                   Hin)).
  - vm_compute; discriminate.
  - lia.
Defined.

Lemma average_keeps_full_window :
  kept_by_detector
    (full_window : Average.interactive_average_detector nat call_log -> Prop).
Proof.
  intros v d u (Hpos & Hsmall & Hlen).
  destruct (average_step_on_full v d u Hpos Hlen) as [Hlen2 Hstep].
  simpl in Hstep. simpl set_elapsed_time. rewrite Hstep.
  assert (Hn : to_uint32 (Z.of_N (Average._samples_count d))
               = Z.of_N (Average._samples_count d))
    by (unfold to_uint32; apply Z.mod_small; lia).
  rewrite Hn.
  destruct (Z.eqb_spec (Z.of_N (Average._samples_count d)) 0); [lia|].
  simpl. repeat split; auto.
Qed.

(** The worker of [scoped_pool_with_test_item_function], with its average
    detector over 5 samples and its trigger level of 1300 ms, for three
    operations on a pool of two. *)
Lemma scoped_worker_completes_run :
  let detector := Some (Average.new_detector 7%nat 5 1300 record_call) in
  let res := scoped_worker tick_clock ticks_in_ms 4 1 3 5 (Some 4294967295)
               (mk_time 0 0 0) Write 0 detector ([] : call_log) (pool_of 2) in
  holds_for full_window detector /\
  _freeItems (pool (pool_of 2)) <> [] /\
  Forall (fun it => is_null it = false) (_freeItems (pool (pool_of 2))) /\
  fst res = Ret tt /\
  get_available_count (pool (the_world (snd res))) = 2%N.
Proof.
  intros detector res.
  assert (Hinv : holds_for full_window detector).
  { simpl. unfold full_window; simpl. repeat split.
    vm_compute; discriminate. }
  assert (Hne : _freeItems (pool (pool_of 2)) <> []) by discriminate.
  assert (Hnull : Forall (fun it : item nat => is_null it = false)
                         (_freeItems (pool (pool_of 2))))
    by (repeat constructor).
  split; [exact Hinv|]. split; [exact Hne|]. split; [exact Hnull|].
  pose proof (scoped_worker_completes tick_clock ticks_in_ms full_window
                0 0 3 5 (Some 4294967295) (mk_time 0 0 0) Write 0
                detector ([] : call_log) (pool_of 2)
                average_keeps_full_window Hinv (fun t => eq_refl) Hne Hnull)
    as Hrun.
  split; [exact (proj1 Hrun)|exact (proj1 (proj2 (proj2 Hrun)))].
Defined.

Lemma worker_completes_run :
  let w := fresh_world (new_interactive_pool new_MyConnectors 2) in
  let res := worker tick_clock ticks_in_ms 4 1 3 5 0 w in
  _freeItems (pool w) <> [] /\
  Forall (fun it => is_null it = false) (_freeItems (pool w)) /\
  fst res = Ret tt /\
  _freeItems (pool (snd res))
  = [Some (mk_connectors (mk_connection true));
     Some (mk_connectors (mk_connection true))].
Proof.
  intros w res.
  assert (Hne : _freeItems (pool w) <> []) by discriminate.
  assert (Hnull : Forall (fun it : item MyConnectors => is_null it = false)
                         (_freeItems (pool w)))
    by (repeat constructor).
  split; [exact Hne|]. split; [exact Hnull|].
  pose proof (worker_completes tick_clock ticks_in_ms 0 0 3 5 0 w Hne Hnull)
    as Hrun.
  split; [exact (proj1 Hrun)|exact (proj1 (proj2 Hrun))].
Defined.

Lemma scoped_worker_starves_run :
  _freeItems (pool (pool_of 0)) = [] /\
  0 < 3 /\
  fst (scoped_worker tick_clock ticks_in_ms 10 4 3 5 (Some 2000)
         (mk_time 0 0 0) Write 0
         (None : option (Peak.interactive_peak_detector nat call_log))
         ([] : call_log) (pool_of 0))
  = Spinning.
Proof.
  assert (Hi : 0 < 3) by reflexivity.
  split; [reflexivity|]. split; [exact Hi|].
  exact (proj1 (scoped_worker_starves tick_clock ticks_in_ms 10 4 3 5
                  (Some 2000) (mk_time 0 0 0) Write 0
                  (None : option (Peak.interactive_peak_detector nat call_log))
                  ([] : call_log) (pool_of 0) eq_refl Hi)).
Defined.

(** ** Where the first wording of C2 and C9 fails *)

(** C2 as first worded does not hold. On an empty pool, under the steady
    clock, [get_item] with [max_wait_ms = 0] does sleep before it throws:
    the 1 ms sleep comes before the loop test. Under a clock that runs
    backwards the same call does not fail at all: after 100 passes it has
    looked at the free list 100 times and is still in its loop. *)
Lemma get_item_zero_wait_sleeps :
  let res := get_item tick_clock ticks_in_ms 1 (Some 0) None (pool_of 0) in
  let back := get_item falling_clock ticks_in_ms 100 (Some 0) None
                       (pool_of 0) in
  _freeItems (pool (pool_of 0)) = [] /\
  fst (fst res) = Throw all_in_use /\
  trace (snd res) = [ev_lock_check true; ev_sleep 1] /\
  count_events is_sleep (trace (snd res)) <> 0%nat /\
  fst (fst back) = Spinning /\
  count_events is_lock_check (trace (snd back)) = 100%nat /\
  count_events is_sleep (trace (snd back)) = 100%nat.
Proof.
  vm_compute. repeat split; discriminate.
Qed.

(** C9 as first worded does not hold. On an empty pool, a scoped connection
    built without [max_wait_ms] sleeps 1 ms before its constructor throws
    under the steady clock, and under a clock that runs backwards its
    constructor does not fail: after 100 passes it is still waiting. *)
Lemma scoped_default_wait_sleeps :
  let res := new_scoped_connection tick_clock ticks_in_ms 1 address None None
               (None : option (Peak.interactive_peak_detector nat call_log))
               ([] : call_log) (pool_of 0) in
  let back := new_scoped_connection falling_clock ticks_in_ms 100 address
                None None
                (None : option (Peak.interactive_peak_detector nat call_log))
                ([] : call_log) (pool_of 0) in
  _freeItems (pool (pool_of 0)) = [] /\
  fst res = Throw all_in_use /\
  trace (the_world (snd res)) = [ev_lock_check true; ev_sleep 1] /\
  count_events is_sleep (trace (the_world (snd res))) <> 0%nat /\
  fst back = Spinning /\
  count_events is_lock_check (trace (the_world (snd back))) = 100%nat /\
  count_events is_sleep (trace (the_world (snd back))) = 100%nat.
Proof.
  vm_compute. repeat split; discriminate.
Qed.
